(** * teslajson: episode segmentation in tesla-parser.py and the base-URL
      check of teslajson.Connection

    The first module embeds the main loop of [tesla-parser.py] (source lines
    137-141 and 261-359): the five module-level variables become a record that
    is threaded through a step function, one step per telemetry record.  The
    second module embeds [Connection.__init__] of [teslajson.py] together with
    the requests it issues.

    Scope of the parser model.
    - A run without [--dbconfig]: with that flag every record is only stored
      and line 254 continues before any of the variables below is touched.
    - A run without [-v]: [outputit] is not modelled, so the only output is
      the line printed when an episode closes.
    - Lines for which [tesla_parselib.tesla_record] yields no object are
      skipped at line 158 and never reach a step.
    - Numbers are exact rationals; the rounding of Python floats, time zones
      and the range of [datetime] are not modelled.  Every division of the
      source has a float operand, so it is true division.
    - The conversions of lines 281-282 are taken to succeed and the elapsed
      time is the difference of the two time stamps; in the source
      [datetime.fromtimestamp] raises ValueError for a time outside its range
      and yields local times, whose difference departs from that of the time
      stamps across a change of the UTC offset.
    - The merge of line 268 yields a record of its own, so the assignment of
      line 278 reaches the incoming record alone. *)

From Stdlib Require Import ZArith QArith Bool List String Ascii Lia.
Import ListNotations.

Open Scope Z_scope.

(** ** Python exceptions and the error monad *)

Inductive exn : Type :=
| ZeroDivisionError
| TypeError
| AttributeError
| IOError
| KeyError.

Inductive result (A : Type) : Type :=
| Ok (a : A)
| Raise (e : exn).

Arguments Ok {A} a.
Arguments Raise {A} e.

Definition bind {A B : Type} (m : result A) (k : A -> result B) : result B :=
  match m with
  | Ok a => k a
  | Raise e => Raise e
  end.

Notation "x <- m ;; k" := (bind m (fun x => k))
  (at level 61, m at next level, right associativity).

(** ** Python 2 values: an optional number

    [None] is smaller than every number under [<] and [>]; arithmetic on
    [None] raises [TypeError]; [None] and zero are false. *)

Definition Qlt_bool (x y : Q) : bool := negb (Qle_bool y x).

Definition truthy (v : option Q) : bool :=
  match v with
  | Some q => negb (Qeq_bool q 0)
  | None => false
  end.

Definition py_lt (a b : option Q) : bool :=
  match a, b with
  | Some x, Some y => Qlt_bool x y
  | None, Some _ => true
  | _, None => false
  end.

Definition py_gt (a b : option Q) : bool := py_lt b a.

Definition py_sub (a b : option Q) : result Q :=
  match a, b with
  | Some x, Some y => Ok (x - y)%Q
  | _, _ => Raise TypeError
  end.

Definition py_mul (a : option Q) (k : Q) : result Q :=
  match a with
  | Some x => Ok (x * k)%Q
  | None => Raise TypeError
  end.

(** [x / y] for a number [x]: [TypeError] when [y] is [None],
    [ZeroDivisionError] when [y] is zero. *)
Definition py_div (x : Q) (b : option Q) : result Q :=
  match b with
  | Some y => if Qeq_bool y 0 then Raise ZeroDivisionError else Ok (x / y)%Q
  | None => Raise TypeError
  end.

(** A [%d] or [%f] conversion of a formatted line needs a number. *)
Definition py_num (a : option Q) : result Q :=
  match a with
  | Some x => Ok x
  | None => Raise TypeError
  end.

Module Parser.

(** ** Records

    The fields of a [tesla_record] that the main loop reads. *)

Record record : Type := mkRecord {
  time : Z;
  mode : string;
  odometer : option Q;
  usable_battery_level : option Q;
  battery_range : option Q;
  charge_energy_added : option Q
}.

Definition set_time (r : record) (t : Z) : record :=
  {| time := t;
     mode := mode r;
     odometer := odometer r;
     usable_battery_level := usable_battery_level r;
     battery_range := battery_range r;
     charge_energy_added := charge_energy_added r |}.

(** Modelled from the spec: [tesla_record.__add__] is defined in
    tesla_parselib, which is not among the sources.  Section 4.1 of the
    specification: the merge returns a value and mutates nothing, and the
    merged record becomes the new last record of the episode (latest wins). *)
Definition add_latest (episode this : record) : record := this.

(** ** Printed lines

    One constructor per [print] of the summary loop, carrying the values handed
    to the format string: the start time of the episode, the elapsed seconds
    and the numbers in the order of the format. *)

Inductive line : Type :=
| NoPreviousState (start : Z) (m : string)
| Charged (start elapsed : Z) (dblevel level energy drange mph kw ratio : Q)
| Drove (start elapsed : Z) (dodo dlevel drange efficiency : Q)
| SatLost (start elapsed : Z) (dlevel drange perday level : Q)
| Conditioned (start elapsed : Z) (dlevel drange perday level : Q)
| DoNotHandle (m : string).

(** What the body of the [while] did with a transition: left through the
    [break] of line 312, or went on to lines 352-353 after printing at most
    one line. *)
Inductive outcome : Type :=
| Deferred
| Closed (printed : option line).

(** What one iteration of the record loop did. *)
Inductive action : Type :=
| Polled
| Seeded
| Merged
| Skipped
| Summarized (printed : option line).

Definition printed_by (a : action) : list line :=
  match a with
  | Summarized (Some l) => [l]
  | _ => []
  end.

Definition is_summarized (a : action) : bool :=
  match a with
  | Summarized _ => true
  | _ => false
  end.

Definition is_skipped (a : action) : bool :=
  match a with
  | Skipped => true
  | _ => false
  end.

(** ** The module-level variables (lines 137-141) *)

Record state : Type := mkState {
  firstthismode : option record;
  lastprevmode : option record;
  save : option record;
  lastthis : option record;
  reallasttime : option Z
}.

Definition initial : state :=
  {| firstthismode := None;
     lastprevmode := None;
     save := None;
     lastthis := None;
     reallasttime := None |}.

(** [obj.attr] on a variable that may still be [None]. *)
Definition deref (o : option record) : result record :=
  match o with
  | Some r => Ok r
  | None => Raise AttributeError
  end.

(** [(thistime - firstthismodetime).total_seconds()], as the difference of
    the time stamps. *)
Definition total_seconds (first save : record) : Z := time save - time first.

(** ** The calculators (lines 286-347) *)

(** Lines 286-309. *)
Definition charging (first this save lastprev : record) (lastthis : option record)
  : result outcome :=
  lt <- deref lastthis ;;
  let battery_range_ :=
    if py_gt (battery_range save) (battery_range lt)
    then battery_range save else battery_range lt in
  let usable_battery_level_ :=
    if py_gt (usable_battery_level this) (usable_battery_level save)
    then usable_battery_level this
    else if py_gt (usable_battery_level save) (usable_battery_level lt)
    then usable_battery_level save
    else usable_battery_level lt in
  let usable_battery_level_ :=
    if py_gt (usable_battery_level save) (usable_battery_level lt)
    then usable_battery_level save else usable_battery_level lt in
  dblevel <- py_sub usable_battery_level_ (usable_battery_level lastprev) ;;
  drange <- py_sub battery_range_ (battery_range lastprev) ;;
  mph <- py_div (drange * 3600)%Q (Some (inject_Z (total_seconds first save))) ;;
  kw <- (if Qlt_bool 0 dblevel
         then e <- py_mul (charge_energy_added save) 100 ;; py_div e (Some dblevel)
         else Ok 0%Q) ;;
  r <- py_mul battery_range_ 100 ;;
  ratio <- py_div r (usable_battery_level save) ;;
  level <- py_num usable_battery_level_ ;;
  energy <- py_num (charge_energy_added save) ;;
  Ok (Closed (Some (Charged (time first) (total_seconds first save)
                            dblevel level energy drange mph kw ratio))).

(** Lines 310-325. *)
Definition driving (first this save lastprev : record) (lastthis : option record)
  : result outcome :=
  if negb (truthy (odometer this)) then Ok Deferred
  else
    lt <- deref lastthis ;;
    let battery_range_ :=
      if py_lt (battery_range save) (battery_range lt)
      then battery_range save else battery_range lt in
    let usable_battery_level_ :=
      if py_lt (usable_battery_level save) (usable_battery_level lt)
      then usable_battery_level save else usable_battery_level lt in
    dodo <- py_sub (odometer save) (odometer lastprev) ;;
    drange <- py_sub (battery_range lastprev) battery_range_ ;;
    if Qlt_bool (-1) dodo
    then
      dlevel <- py_sub (usable_battery_level lastprev) usable_battery_level_ ;;
      efficiency <- (if Qlt_bool 0 drange
                     then py_div (dodo * 100)%Q (Some drange)
                     else Ok 0%Q) ;;
      Ok (Closed (Some (Drove (time first) (total_seconds first save)
                              dodo dlevel drange efficiency)))
    else Ok (Closed None).

(** Lines 326-336. *)
Definition standby (first this save lastprev : record) (lastthis : option record)
  : result outcome :=
  lt <- deref lastthis ;;
  let battery_range_ :=
    if py_lt (battery_range save) (battery_range lt)
    then battery_range save else battery_range lt in
  let usable_battery_level_ := usable_battery_level lt in
  drange <- py_sub (battery_range lastprev) battery_range_ ;;
  dlevel <- py_sub (usable_battery_level lastprev) usable_battery_level_ ;;
  perday <- py_div drange
              (Some (inject_Z (total_seconds first save) / 86400)%Q) ;;
  level <- py_num usable_battery_level_ ;;
  Ok (Closed (Some (SatLost (time first) (total_seconds first save)
                            dlevel drange perday level))).

(** Lines 337-347. *)
Definition conditioning (first this save lastprev : record) (lastthis : option record)
  : result outcome :=
  lt <- deref lastthis ;;
  let battery_range_ :=
    if py_lt (battery_range save) (battery_range lt)
    then battery_range save else battery_range lt in
  let usable_battery_level_ := usable_battery_level lt in
  drange <- py_sub (battery_range lastprev) battery_range_ ;;
  dlevel <- py_sub (usable_battery_level lastprev) usable_battery_level_ ;;
  perday <- py_div drange
              (Some (inject_Z (total_seconds first save) / 86400)%Q) ;;
  level <- py_num usable_battery_level_ ;;
  Ok (Closed (Some (Conditioned (time first) (total_seconds first save)
                                dlevel drange perday level))).

(** The test of line 283. *)
Definition lacks_previous_state (lastprev : option record) : bool :=
  match lastprev with
  | None => true
  | Some p => negb (truthy (usable_battery_level p)) || negb (truthy (odometer p))
  end.

(** Lines 283-351: the [if]/[elif] chain on the mode of the closing episode. *)
Definition summarize (first this save : record) (lastprev lastthis : option record)
  : result outcome :=
  match lastprev with
  | None => Ok (Closed (Some (NoPreviousState (time first) (mode first))))
  | Some p =>
    if lacks_previous_state lastprev
    then Ok (Closed (Some (NoPreviousState (time first) (mode first))))
    else if (mode first =? "Charging")%string then charging first this save p lastthis
    else if (mode first =? "Driving")%string then driving first this save p lastthis
    else if (mode first =? "Standby")%string then standby first this save p lastthis
    else if (mode first =? "Conditioning")%string
         then conditioning first this save p lastthis
    else Ok (Closed (Some (DoNotHandle (mode first))))
  end.

(** [if reallasttime:] of line 277. *)
Definition pending (t : option Z) : bool :=
  match t with
  | Some z => negb (z =? 0)
  | None => false
  end.

Section Segmenter.

(** [tesla_record.__add__], the merge of line 268. *)
Variable add : record -> record -> record.

(** Command line flag [--nosummary]. *)
Variable nosummary : bool.

(** Lines 267-271. *)
Definition merged (st : state) (this : record) : record :=
  match save st with
  | Some s => add s this
  | None => this
  end.

(** Lines 261-359: one record. *)
Definition step (st : state) (this : record) : result (state * action) :=
  if (mode this =? "Polling")%string
  then Ok ({| firstthismode := firstthismode st;
              lastprevmode := lastprevmode st;
              save := save st;
              lastthis := lastthis st;
              reallasttime := Some (time this) |}, Polled)
  else
    let sv := merged st this in
    match firstthismode st, nosummary with
    | Some first, false =>
      if negb (mode first =? mode this)%string
      then
        let this_ :=
          match reallasttime st with
          | Some t => if pending (reallasttime st) then set_time this t else this
          | None => this
          end in
        let reallasttime_ :=
          if pending (reallasttime st) then None else reallasttime st in
        o <- summarize first this_ sv (lastprevmode st) (lastthis st) ;;
        match o with
        | Deferred =>
          Ok ({| firstthismode := firstthismode st;
                 lastprevmode := lastprevmode st;
                 save := Some sv;
                 lastthis := Some sv;
                 reallasttime := reallasttime_ |}, Skipped)
        | Closed printed =>
          Ok ({| firstthismode := Some sv;
                 lastprevmode := lastthis st;
                 save := Some sv;
                 lastthis := Some sv;
                 reallasttime := reallasttime_ |}, Summarized printed)
        end
      else
        Ok ({| firstthismode := firstthismode st;
               lastprevmode := lastprevmode st;
               save := Some sv;
               lastthis := Some sv;
               reallasttime := reallasttime st |}, Merged)
    | _, _ =>
      Ok ({| firstthismode := Some sv;
             lastprevmode := Some sv;
             save := Some sv;
             lastthis := Some sv;
             reallasttime := None |}, Seeded)
    end.

(** The record loop: the actions taken so far, and the final variables or the
    exception that ended the program. *)
Fixpoint run (st : state) (rs : list record) : list action * result state :=
  match rs with
  | [] => ([], Ok st)
  | r :: rs' =>
    match step st r with
    | Ok (st', a) => let (acts, res) := run st' rs' in (a :: acts, res)
    | Raise e => ([], Raise e)
    end
  end.

End Segmenter.

Definition printed (acts : list action) : list line := flat_map printed_by acts.

Definition closures (acts : list action) : nat :=
  List.length (filter is_summarized acts).

(** ** Definitions used by the statements *)

Open Scope string_scope.
Open Scope list_scope.

(** The label of the line, the only difference between lines 326-336 and
    lines 337-347. *)
Definition relabel (o : outcome) : outcome :=
  match o with
  | Closed (Some (SatLost start elapsed dlevel drange perday level)) =>
    Closed (Some (Conditioned start elapsed dlevel drange perday level))
  | _ => o
  end.

Definition map_result {A B : Type} (f : A -> B) (m : result A) : result B :=
  match m with
  | Ok a => Ok (f a)
  | Raise e => Raise e
  end.

(** Adjacent pairs of differing modes in a list of modes. *)
Fixpoint boundaries (current : string) (ms : list string) : nat :=
  match ms with
  | [] => 0
  | m :: ms' => (if current =? m then 0 else 1) + boundaries m ms'
  end.

(** The modes of the records that are not of mode Polling. *)
Definition segmented_modes (rs : list record) : list string :=
  map mode (filter (fun r => negb (mode r =? "Polling")) rs).

(** Mode-transition boundaries of a record sequence. *)
Definition transitions (rs : list record) : nat :=
  match segmented_modes rs with
  | [] => 0
  | m :: ms => boundaries m ms
  end.



(** The battery baseline of Standby and Conditioning as the specification
    words it: the smaller of the two levels. *)
Definition spec_minBatteryLevel (save lastthis : record) : option Q :=
  if py_lt (usable_battery_level save) (usable_battery_level lastthis)
  then usable_battery_level save
  else usable_battery_level lastthis.

(** The minimum range of Driving, Standby and Conditioning. *)
Definition min_range (a b : Q) : Q := if Qlt_bool a b then a else b.

(** A record with every field present. *)
Definition sample (t : Z) (m : string) (odo level range energy : Z) : record :=
  {| time := t;
     mode := m;
     odometer := Some (inject_Z odo);
     usable_battery_level := Some (inject_Z level);
     battery_range := Some (inject_Z range);
     charge_energy_added := Some (inject_Z energy) |}.

(** A record without an odometer reading. *)
Definition sample_no_odometer (t : Z) (m : string) (level range : Z) : record :=
  {| time := t;
     mode := m;
     odometer := None;
     usable_battery_level := Some (inject_Z level);
     battery_range := Some (inject_Z range);
     charge_energy_added := None |}.

Definition all_polling (rs : list record) : Prop :=
  Forall (fun r => mode r = "Polling") rs.

(** Records that keep an episode of mode [m] open. *)
Definition within_episode (m : string) (rs : list record) : Prop :=
  Forall (fun r => mode r = "Polling" \/ mode r = m) rs.

(** The incoming record after lines 277-279. *)
Definition incoming (st : state) (this : record) : record :=
  match reallasttime st with
  | Some t => if pending (reallasttime st) then set_time this t else this
  | None => this
  end.

(** [reallasttime] after lines 277-279. *)
Definition cleared (st : state) : option Z :=
  if pending (reallasttime st) then None else reallasttime st.

(** The variables after the [break] of line 312 and line 359. *)
Definition deferred_state (st : state) (sv : record) : state :=
  {| firstthismode := firstthismode st;
     lastprevmode := lastprevmode st;
     save := Some sv;
     lastthis := Some sv;
     reallasttime := cleared st |}.

(** The variables after lines 352-353 and line 359. *)
Definition advanced_state (st : state) (sv : record) : state :=
  {| firstthismode := Some sv;
     lastprevmode := lastthis st;
     save := Some sv;
     lastthis := Some sv;
     reallasttime := cleared st |}.

(** How the loop goes on after the [if]/[elif] chain. *)
Definition finish (st : state) (sv : record) (r : result outcome)
  : result (state * action) :=
  o <- r ;;
  match o with
  | Deferred => Ok (deferred_state st sv, Skipped)
  | Closed p => Ok (advanced_state st sv, Summarized p)
  end.

(** The variables after the first record that is not of mode Polling
    (lines 355-359). *)
Definition seeded (r : record) : state :=
  {| firstthismode := Some r;
     lastprevmode := Some r;
     save := Some r;
     lastthis := Some r;
     reallasttime := None |}.

End Parser.


Module Teslajson.

Open Scope string_scope.

(** ** The string tests of line 64 *)

(** [s.startswith(p)] *)
Definition startswith (s p : string) : bool := String.prefix p s.

(** [s.endswith(suffix)] *)
Definition endswith (s suffix : string) : bool :=
  (String.length suffix <=? String.length s)%nat &&
  (substring (String.length s - String.length suffix) (String.length suffix) s
   =? suffix).

(** [s[n:]] *)
Definition slice_from (n : nat) (s : string) : string :=
  substring n (String.length s - n) s.

(** [c in s] for a string [c] of one character. *)
Fixpoint contains (c : ascii) (s : string) : bool :=
  match s with
  | EmptyString => false
  | String a s' => Ascii.eqb a c || contains c s'
  end.

Definition prefix : string := "https://".

(** The condition of line 64, under which line 65 raises. *)
Definition unexpected_url (baseurl : string) : bool :=
  negb (startswith baseurl prefix)
  || contains "/" (slice_from (String.length prefix) baseurl)
  || negb (endswith baseurl ".teslamotors.com" || endswith baseurl ".tesla.com").

(** ** Requests and replies

    A request is what [__open] hands to the opener.  The decoded replies are
    typed by endpoint; a reply of another shape, like a failure of the
    network, is an exception of the oracle. *)

Definition dict : Type := list (string * string).

Record request : Type := mkRequest {
  url : string;
  headers : dict;
  data : option dict
}.

Record client : Type := mkClient {
  client_baseurl : string;
  client_api : string;
  client_id : string;
  client_secret : string
}.

Record token : Type := mkToken {
  token_access_token : string;
  token_created_at : Z;
  token_expires_in : Z
}.

Record network : Type := mkNetwork {
  fetch_client : request -> result client;
  fetch_token : request -> result token;
  fetch_vehicles : request -> result (list Z)
}.

(** A computation that issues requests: the requests in order and the value
    or the exception. *)
Definition io (A : Type) : Type := (list request * result A)%type.

Definition io_ret {A : Type} (a : A) : io A := ([], Ok a).

Definition io_raise {A : Type} (e : exn) : io A := ([], Raise e).

Definition io_bind {A B : Type} (m : io A) (k : A -> io B) : io B :=
  match m with
  | (t, Ok a) => let (t', r) := k a in ((t ++ t')%list, r)
  | (t, Raise e) => (t, Raise e)
  end.

Notation "x <~ m ;; k" := (io_bind m (fun x => k))
  (at level 61, m at next level, right associativity).

(** The fields of a [Connection]; [expiration] is [None] for [float('inf')],
    and [oauth] is [None] while the attribute is not set. *)
Record connection : Type := mkConnection {
  baseurl : string;
  api : string;
  head : dict;
  oauth : option dict;
  expiration : option Z;
  vehicles : list Z
}.

Fixpoint has_key (k : string) (d : dict) : bool :=
  match d with
  | [] => false
  | (k', _) :: d' => (k' =? k) || has_key k d'
  end.

(** [__user_agent] (lines 92-94) *)
Definition user_agent (head : dict) : dict :=
  if has_key "User-Agent" head then head
  else (head ++ [("User-Agent", "teslajson.py 1.3.1")])%list.

(** [_sethead] (lines 96-100): the new header dictionary. *)
Definition sethead (access_token : string) : dict :=
  [("Authorization", "Bearer " ++ access_token)].

(** The request of [__open] (lines 112-117): [baseurl] falls back on the
    connection's own when it is empty. *)
Definition open_request (self_baseurl path : string) (hdrs : dict)
  (body : option dict) (baseurl : string) : request :=
  let baseurl := if (baseurl =? "") then self_baseurl else baseurl in
  {| url := baseurl ++ path; headers := hdrs; data := body |}.

Definition pastebin : request :=
  open_request "" "/raw/0a8e0xTJ" [] None "http://pastebin.com".

(** [now > self.expiration] of line 86. *)
Definition expired (now : Z) (expiration : option Z) : bool :=
  match expiration with
  | Some e => (now >? e)%Z
  | None => false
  end.

(** [sorted(..., key=lambda d: d['id'])] on the identifiers. *)
Fixpoint insert_id (x : Z) (l : list Z) : list Z :=
  match l with
  | [] => [x]
  | y :: l' => if (x <? y)%Z then x :: l else y :: insert_id x l'
  end.

Definition sorted_ids (l : list Z) : list Z := fold_right insert_id [] l.

Section Connection.

Variable net : network.

(** The clock read at line 85. *)
Variable now : Z.

(** [post] (lines 83-90) for the vehicle list, with [data=None]: the header
    dictionary after the call and the reply. *)
Definition get_vehicles (self_baseurl self_api : string) (self_head : dict)
  (self_oauth : option dict) (self_expiration : option Z)
  : io (dict * option Z * list Z) :=
  auth <~ (if expired now self_expiration
           then
             match self_oauth with
             | Some o =>
               let req := open_request self_baseurl "/oauth/token" [] (Some o) "" in
               t <~ ([req], fetch_token net req) ;;
               io_ret (sethead (token_access_token t),
                       Some (token_created_at t + token_expires_in t - 86400)%Z)
             | None => io_raise AttributeError
             end
           else io_ret (self_head, self_expiration)) ;;
  let hd := user_agent (fst auth) in
  let req := open_request self_baseurl (self_api ++ "vehicles") hd None "" in
  ids <~ ([req], fetch_vehicles net req) ;;
  io_ret (hd, snd auth, ids).

(** [Connection.__init__] (lines 54-77). *)
Definition Connection_init (email password access_token : string) : io connection :=
  tesla_client <~ ([pastebin], fetch_client net pastebin) ;;
  let head0 := user_agent [] in
  let baseurl_ := client_baseurl tesla_client in
  if unexpected_url baseurl_ then io_raise IOError
  else
    let api_ := client_api tesla_client in
    let head1 := if (access_token =? "") then head0 else sethead access_token in
    let oauth_ :=
      if (access_token =? "") then
        Some [("grant_type", "password");
              ("client_id", client_id tesla_client);
              ("client_secret", client_secret tesla_client);
              ("email", email);
              ("password", password)]
      else None in
    let expiration_ := if (access_token =? "") then Some 0%Z else None in
    r <~ get_vehicles baseurl_ api_ head1 oauth_ expiration_ ;;
    let '(hd, ex, ids) := r in
    io_ret {| baseurl := baseurl_;
              api := api_;
              head := hd;
              oauth := oauth_;
              expiration := ex;
              vehicles := sorted_ids ids |}.

End Connection.

(** The three conditions of line 64 on the text of a base URL: it begins
    with [https://], has no slash after that prefix, and ends in
    [.teslamotors.com] or in [.tesla.com]. *)
Definition passes_url_test (u : string) : Prop :=
  (exists rest, u = prefix ++ rest /\ forall a b, rest <> a ++ String "/" b)
  /\ exists pre, u = pre ++ ".teslamotors.com" \/ u = pre ++ ".tesla.com".

Definition sample_client (u : string) : client :=
  {| client_baseurl := u;
     client_api := "/api/1/";
     client_id := "id";
     client_secret := "secret" |}.

(** A network that serves the given base URL and one vehicle. *)
Definition sample_network (u : string) : network :=
  {| fetch_client := fun _ => Ok (sample_client u);
     fetch_token := fun _ => Ok {| token_access_token := "abc";
                                   token_created_at := 1000;
                                   token_expires_in := 100000 |};
     fetch_vehicles := fun _ => Ok [7%Z] |}.

End Teslajson.

(** * The driver, the output files and the API methods *)

From Stdlib Require Import DecimalString DecimalZ Sorted Permutation.

Module Driver.

Import Parser.

Open Scope string_scope.
Open Scope list_scope.

(** The exceptions of arithmetic and formatting on a missing or zero value. *)
Definition arithmetic (e : exn) : Prop := e = TypeError \/ e = ZeroDivisionError.

(** The variables with [reallasttime] left out. *)
Definition records_of (st : state)
  : option record * option record * option record * option record :=
  (firstthismode st, lastprevmode st, save st, lastthis st).

(** Either no record has been merged yet, or all four variables hold a record
    and [lastthis] is [save]. *)
Definition settled (st : state) : Prop :=
  records_of st = (None, None, None, None)
  \/ exists first prev sv,
       records_of st = (Some first, Some prev, Some sv, Some sv).

(** [save] after the records of a sequence (lines 267-271). *)
Definition accumulate (add : record -> record -> record)
  (acc : option record) (rs : list record) : option record :=
  fold_left
    (fun acc r =>
       if mode r =? "Polling" then acc
       else Some (match acc with Some s => add s r | None => r end))
    rs acc.

(** The higher of two numbers, as [a if a > b else b]. *)
Definition max_value (a b : Q) : Q := if Qlt_bool b a then a else b.

Section Files.

Variable add : record -> record -> record.
Variable nosummary : bool.

(** Lines 144-145: the files are read one after the other and the
    module-level variables are not touched in between. *)
Fixpoint run_files (st : state) (files : list (list record))
  : list action * result state :=
  match files with
  | [] => ([], Ok st)
  | f :: files' =>
    match run add nosummary st f with
    | (acts, Ok st') =>
      let (acts', res) := run_files st' files' in (acts ++ acts', res)
    | (acts, Raise e) => (acts, Raise e)
    end
  end.

End Files.

End Driver.

Module Archive.

Open Scope string_scope.
Open Scope list_scope.

(** ** The daily output files (lines 93-108 and 257-259)

    [X] is the path of the file that is open, [None] before the first one is
    opened.  Opening, linking and writing are taken to succeed. *)

Inductive event : Type :=
| Closing (path : string)
| Opening (path : string)
| Linking (target link : string)
| Writing (path line : string).

Record state : Type := mkState {
  nexthour : Z;
  X : option string
}.

Definition initial : state := {| nexthour := 0; X := None |}.

Section Archive.

(** [time.strftime("%Y-%m-%d.json", time.gmtime(cur))] *)
Variable strftime : Z -> string.

(** [args.outdir] *)
Variable outdir : option string.

(** [if args.outdir:] *)
Definition wanted : bool :=
  match outdir with
  | Some d => negb (d =? "")
  | None => false
  end.

(** Lines 95-108.  On integers [int(cur / 3600)] is the floor of the
    quotient. *)
Definition output_maintenance (st : state) (cur : Z) : state * list event :=
  match outdir with
  | None => (st, [])
  | Some d =>
    if d =? "" then (st, [])
    else if (cur <? nexthour st)%Z then (st, [])
    else
      let closing :=
        match X st with
        | Some p => [Closing p]
        | None => []
        end in
      let fname := strftime cur in
      let pname := (d ++ "/" ++ fname)%string in
      ({| nexthour := (cur / 3600 + 1) * 3600; X := Some pname |},
       closing ++ [Opening pname; Linking fname (d ++ "/cur.json")%string])
  end.

(** Lines 257-259 for one record: its time and its line. *)
Definition archive (st : state) (cur : Z) (line : string)
  : result (state * list event) :=
  if wanted then
    let (st', evs) := output_maintenance st cur in
    match X st' with
    | Some p => Ok (st', evs ++ [Writing p line])
    | None => Raise AttributeError
    end
  else Ok (st, []).

(** The records of a run, one after the other. *)
Fixpoint archive_all (st : state) (ls : list (Z * string))
  : list event * result state :=
  match ls with
  | [] => ([], Ok st)
  | (cur, line) :: ls' =>
    match archive st cur line with
    | Ok (st', evs) =>
      let (evs', res) := archive_all st' ls' in (evs ++ evs', res)
    | Raise e => ([], Raise e)
    end
  end.

End Archive.

(** The lines written, with the path each went to. *)
Definition written (evs : list event) : list (string * string) :=
  flat_map (fun e => match e with Writing p l => [(p, l)] | _ => [] end) evs.

(** A file name that depends on the day of the time alone, as the name
    computed by [strftime] does; used where a concrete name is needed. *)
Definition day_name (t : Z) : string :=
  (NilZero.string_of_int (Z.to_int (t / 86400)) ++ ".json")%string.

(** Time stamps that never go back, from [prev] on. *)
Fixpoint nondecreasing (prev : Z) (ts : list Z) : Prop :=
  match ts with
  | [] => True
  | t :: ts' => prev <= t /\ nondecreasing t ts'
  end.

End Archive.

Module Api.

Import Teslajson.

Open Scope list_scope.
Open Scope string_scope.

(** ** The methods of [Connection] and [Vehicle] *)

(** ['%i' % n] *)
Definition format_int (n : Z) : string := NilZero.string_of_int (Z.to_int n).

(** [_sethead] (lines 96-100) on a connection. *)
Definition with_token (self : connection) (t : token) : connection :=
  {| baseurl := baseurl self;
     api := api self;
     head := sethead (token_access_token t);
     oauth := oauth self;
     expiration := Some (token_created_at t + token_expires_in t - 86400)%Z;
     vehicles := vehicles self |}.

Definition with_head (self : connection) (hd : dict) : connection :=
  {| baseurl := baseurl self;
     api := api self;
     head := hd;
     oauth := oauth self;
     expiration := expiration self;
     vehicles := vehicles self |}.

(** One call of a method: the clock, the command and the data. *)
Record call : Type := mkCall {
  call_now : Z;
  call_command : string;
  call_data : option dict
}.

Section Methods.

(** The decoded replies of the API. *)
Variable reply : Type.
Variable fetch_token : request -> result token.
Variable fetch : request -> result reply.

(** [result['response']] *)
Variable response : reply -> result reply.

(** [Connection.post] (lines 83-90). *)
Definition post (now : Z) (self : connection) (command : string)
  (data : option dict) : io (connection * reply) :=
  self1 <~ (if expired now (expiration self)
            then
              match oauth self with
              | Some o =>
                let req := open_request (baseurl self) "/oauth/token" [] (Some o) "" in
                t <~ ([req], fetch_token req) ;;
                io_ret (with_token self t)
              | None => io_raise AttributeError
              end
            else io_ret self) ;;
  let hd := user_agent (head self1) in
  let req := open_request (baseurl self1) (api self1 ++ command) hd data "" in
  r <~ ([req], fetch req) ;;
  io_ret (with_head self1 hd, r).

(** [Connection.get] (lines 79-81). *)
Definition get (now : Z) (self : connection) (command : string)
  : io (connection * reply) :=
  post now self command None.

(** [Connection.refresh_token] (lines 102-109); [current] is
    [self.current_client]. *)
Definition refresh_token (current : client) (self : connection)
  (refresh : string) : io (connection * token) :=
  let oauth_ := [("grant_type", "refresh_token");
                 ("client_id", client_id current);
                 ("client_secret", client_secret current);
                 ("refresh_token", refresh)] in
  let req := open_request (baseurl self) "/oauth/token" [] (Some oauth_) "" in
  t <~ ([req], fetch_token req) ;;
  io_ret ({| baseurl := baseurl self;
             api := api self;
             head := user_agent [];
             oauth := Some oauth_;
             expiration := expiration self;
             vehicles := vehicles self |}, t).

(** [Vehicle.get] (lines 180-185) for the vehicle of identifier [id]. *)
Definition vehicle_get (now : Z) (self : connection) (id : Z) (command : string)
  : io (connection * reply) :=
  if command =? "" then get now self ("vehicles/" ++ format_int id)
  else get now self ("vehicles/" ++ format_int id ++ "/" ++ command).

(** [Vehicle.post] (lines 187-189). *)
Definition vehicle_post (now : Z) (self : connection) (id : Z) (command : string)
  (data : option dict) : io (connection * reply) :=
  post now self ("vehicles/" ++ format_int id ++ "/" ++ command) data.

(** [result['response']] after a call. *)
Definition responding (m : io (connection * reply)) : io (connection * reply) :=
  r <~ m ;;
  match response (snd r) with
  | Ok v => io_ret (fst r, v)
  | Raise e => io_raise e
  end.

(** [Vehicle.data_all] (lines 159-162). *)
Definition data_all (now : Z) (self : connection) (id : Z)
  : io (connection * reply) :=
  responding (vehicle_get now self id "data").

(** [Vehicle.data_request] (lines 164-170). *)
Definition data_request (now : Z) (self : connection) (id : Z) (name : string)
  : io (connection * reply) :=
  responding (if name =? "" then vehicle_get now self id name
              else vehicle_get now self id ("data_request/" ++ name)).

(** [Vehicle.wake_up] (lines 172-174); the default [data] is [{}]. *)
Definition wake_up (now : Z) (self : connection) (id : Z)
  : io (connection * reply) :=
  vehicle_post now self id "wake_up" (Some []).

(** [Vehicle.command] (lines 176-178). *)
Definition command (now : Z) (self : connection) (id : Z) (name : string)
  (data : option dict) : io (connection * reply) :=
  vehicle_post now self id ("command/" ++ name) data.

(** A series of calls of [post] on the same connection. *)
Fixpoint posts (self : connection) (calls : list call) : io connection :=
  match calls with
  | [] => io_ret self
  | c :: calls' =>
    r <~ post (call_now c) self (call_command c) (call_data c) ;;
    posts (fst r) calls'
  end.

End Methods.

(** The requests of a list that go out when each is sent only once the one
    before it was answered: those up to the first that fails, that one
    included. *)
Fixpoint upto_failure {A : Type} (fetch : request -> result A)
  (rs : list request) : list request :=
  match rs with
  | [] => []
  | r :: rs' =>
    r :: match fetch r with
         | Ok _ => upto_failure fetch rs'
         | Raise _ => []
         end
  end.

(** The request carries the header [k]. *)
Definition sends_header (k : string) (r : request) : bool := has_key k (headers r).

End Api.

(** * Facts about the parser *)

Module ParserFacts.

Import Parser.

Open Scope string_scope.
Open Scope list_scope.

(** ** Polling records *)

Lemma step_polling add nosummary st this :
  mode this = "Polling" ->
  step add nosummary st this =
    Ok ({| firstthismode := firstthismode st;
           lastprevmode := lastprevmode st;
           save := save st;
           lastthis := lastthis st;
           reallasttime := Some (time this) |}, Polled).
Proof.
  intros Hm. unfold step. rewrite Hm. reflexivity.
Qed.

(** C7: a record of mode Polling changes nothing but [reallasttime], which
    becomes the time of that record; [save], [firstthismode], [lastprevmode] and
    [lastthis] keep their values and nothing is summarized or printed. *)
Theorem polling_only_updates_reallasttime :
  forall add nosummary st this,
    mode this = "Polling" ->
    step add nosummary st this =
      Ok ({| firstthismode := firstthismode st;
             lastprevmode := lastprevmode st;
             save := save st;
             lastthis := lastthis st;
             reallasttime := Some (time this) |}, Polled)
    /\ printed_by Polled = [] /\ is_summarized Polled = false.
Proof.
  intros add nosummary st this Hm.
  rewrite (step_polling add nosummary st this Hm). auto.
Qed.

Lemma polling_only_updates_reallasttime_witness :
  step add_latest false initial (sample 42 "Polling" 1000 50 150 0) =
    Ok ({| firstthismode := None; lastprevmode := None; save := None;
           lastthis := None; reallasttime := Some 42%Z |}, Polled)
  /\ printed_by Polled = [] /\ is_summarized Polled = false.
Proof.
  apply (polling_only_updates_reallasttime add_latest false initial
           (sample 42 "Polling" 1000 50 150 0)).
  reflexivity.
Defined.

(** ** Standby and Conditioning *)

Lemma conditioning_relabels_standby first this sv lp lt :
  conditioning first this sv lp lt =
    map_result relabel (standby first this sv lp lt).
Proof.
  unfold conditioning, standby.
  repeat (match goal with
          | |- context [bind ?m _] => destruct m; cbn [bind map_result]
          end; try reflexivity).
Qed.

(** C8: on the same arguments the Conditioning calculator returns what the
    Standby calculator returns, the label of the line apart: the same range
    and level baselines, the same lost level, lost range and rate per day,
    and the same exception when one is raised. *)
Theorem conditioning_is_standby_relabelled :
  forall first this save lastprev lastthis,
    conditioning first this save lastprev lastthis =
    map_result relabel (standby first this save lastprev lastthis).
Proof.
  intros first this sv lp lt.
  apply conditioning_relabels_standby.
Qed.

(** ** Shape of a step *)

Lemma incoming_fields st this :
  mode (incoming st this) = mode this
  /\ odometer (incoming st this) = odometer this
  /\ usable_battery_level (incoming st this) = usable_battery_level this.
Proof.
  unfold incoming.
  destruct (reallasttime st); [destruct (pending _)|]; cbn; auto.
Qed.

Lemma step_transition add st this first :
  mode this <> "Polling" ->
  firstthismode st = Some first ->
  mode first <> mode this ->
  step add false st this =
    finish st (merged add st this)
      (summarize first (incoming st this) (merged add st this)
                 (lastprevmode st) (lastthis st)).
Proof.
  intros Hp Hf Hm.
  unfold step, finish, deferred_state, advanced_state, incoming, cleared.
  apply String.eqb_neq in Hp. apply String.eqb_neq in Hm.
  rewrite Hp, Hf, Hm. reflexivity.
Qed.

Lemma step_same_mode add st this first :
  mode this <> "Polling" ->
  firstthismode st = Some first ->
  mode first = mode this ->
  step add false st this =
    Ok ({| firstthismode := firstthismode st;
           lastprevmode := lastprevmode st;
           save := Some (merged add st this);
           lastthis := Some (merged add st this);
           reallasttime := reallasttime st |}, Merged).
Proof.
  intros Hp Hf Hm. unfold step.
  apply String.eqb_neq in Hp. rewrite Hp, Hf, Hm, String.eqb_refl.
  cbn [negb]. rewrite <- Hf. reflexivity.
Qed.

Lemma summarize_mode first this sv lp lt :
  lacks_previous_state (Some lp) = false ->
  summarize first this sv (Some lp) lt =
    if mode first =? "Charging" then charging first this sv lp lt
    else if mode first =? "Driving" then driving first this sv lp lt
    else if mode first =? "Standby" then standby first this sv lp lt
    else if mode first =? "Conditioning" then conditioning first this sv lp lt
    else Ok (Closed (Some (DoNotHandle (mode first)))).
Proof.
  intros H. unfold summarize. rewrite H. reflexivity.
Qed.

Lemma Qlt_bool_iff x y : Qlt_bool x y = true <-> (x < y)%Q.
Proof.
  unfold Qlt_bool. rewrite negb_true_iff.
  split.
  - intros H. apply Qnot_le_lt. intros Hle.
    apply Qle_bool_iff in Hle. congruence.
  - intros H. destruct (Qle_bool y x) eqn:E; [|reflexivity].
    apply Qle_bool_iff in E. exfalso. exact (Qlt_not_le _ _ H E).
Qed.

Lemma Qlt_bool_false_iff x y : Qlt_bool x y = false <-> (y <= x)%Q.
Proof.
  unfold Qlt_bool. rewrite negb_false_iff. apply Qle_bool_iff.
Qed.

Lemma py_gt_irrefl v : py_gt v v = false.
Proof.
  destruct v as [q|]; cbn; [|reflexivity].
  apply Qlt_bool_false_iff. apply Qle_refl.
Qed.

Lemma days_nonzero z :
  z <> 0%Z -> Qeq_bool (inject_Z z / 86400) 0 = false.
Proof.
  intros Hz. destruct (Qeq_bool _ 0) eqn:E; [|reflexivity].
  apply Qeq_bool_eq in E. unfold Qeq in E. cbn in E. lia.
Qed.

(** ** Driving *)

(** C9, as amended: when the previous boundary has a level and an odometer
    reading and the ranges of [save], [lastthis] and [lastprevmode] are
    present, a Driving episode that closes with an odometer reading on the
    incoming record, while the distance [save.odometer - lastprevmode.odometer]
    is at most -1, prints nothing, neither a summary nor a diagnostic, and
    the variables advance to the new episode as after any summary. *)
Theorem driving_negative_distance_dropped :
  forall add st this first lastprev lt rs rl rp dodo,
    mode this <> "Polling" ->
    firstthismode st = Some first ->
    mode first = "Driving" ->
    mode this <> "Driving" ->
    lastprevmode st = Some lastprev ->
    lacks_previous_state (Some lastprev) = false ->
    lastthis st = Some lt ->
    truthy (odometer this) = true ->
    battery_range (merged add st this) = Some rs ->
    battery_range lt = Some rl ->
    battery_range lastprev = Some rp ->
    py_sub (odometer (merged add st this)) (odometer lastprev) = Ok dodo ->
    (dodo <= -1)%Q ->
    step add false st this =
      Ok ({| firstthismode := Some (merged add st this);
             lastprevmode := Some lt;
             save := Some (merged add st this);
             lastthis := Some (merged add st this);
             reallasttime := cleared st |}, Summarized None)
    /\ printed_by (Summarized None) = [].
Proof.
  intros add st this first lp lt rs rl rp dodo
         Hp Hf Hd Hne Hlp Hlack Hlt Hodo Hrs Hrl Hrp Hsub Hle.
  split; [|reflexivity].
  rewrite (step_transition add st this first Hp Hf) by congruence.
  rewrite Hlp, Hlt, (summarize_mode _ _ _ _ _ Hlack), Hd. cbn [String.eqb Ascii.eqb Bool.eqb].
  unfold driving.
  destruct (incoming_fields st this) as (_ & Ho & _). rewrite Ho, Hodo.
  cbn [negb deref bind]. rewrite Hsub. cbn [bind].
  rewrite Hrs, Hrl, Hrp. cbn [py_lt].
  assert (Hgate : Qlt_bool (-1) dodo = false) by (apply Qlt_bool_false_iff; exact Hle).
  destruct (Qlt_bool rs rl); cbn [py_sub bind]; rewrite Hgate;
    unfold finish, advanced_state; cbn [bind]; rewrite Hlt; reflexivity.
Qed.

Lemma driving_negative_distance_dropped_witness :
  step add_latest false (seeded (sample 0 "Driving" 1000 80 200 0))
       (sample 100 "Standby" 990 70 180 0) =
    Ok ({| firstthismode := Some (sample 100 "Standby" 990 70 180 0);
           lastprevmode := Some (sample 0 "Driving" 1000 80 200 0);
           save := Some (sample 100 "Standby" 990 70 180 0);
           lastthis := Some (sample 100 "Standby" 990 70 180 0);
           reallasttime := None |}, Summarized None)
  /\ printed_by (Summarized None) = [].
Proof.
  apply (driving_negative_distance_dropped add_latest
           (seeded (sample 0 "Driving" 1000 80 200 0))
           (sample 100 "Standby" 990 70 180 0)
           (sample 0 "Driving" 1000 80 200 0)
           (sample 0 "Driving" 1000 80 200 0)
           (sample 0 "Driving" 1000 80 200 0)
           180%Q 200%Q 200%Q (990 - 1000)%Q);
    try reflexivity; try discriminate.
Defined.

(** C9, counterexample: a Driving episode closes with an odometer reading on
    the incoming record and a distance of -10.  When the previous boundary
    has no level the line of the missing previous state is printed; when it
    has a level but no range, TypeError is raised and nothing advances. *)
Lemma driving_negative_distance_not_always_silent :
  let no_level :=
    {| time := 0; mode := "Driving"; odometer := Some 1000%Q;
       usable_battery_level := None; battery_range := Some 200%Q;
       charge_energy_added := None |} in
  let no_range :=
    {| time := 0; mode := "Driving"; odometer := Some 1000%Q;
       usable_battery_level := Some 80%Q; battery_range := None;
       charge_energy_added := None |} in
  let this := sample 100 "Standby" 990 70 180 0 in
  truthy (odometer this) = true
  /\ py_sub (odometer this) (odometer no_level) = Ok (990 - 1000)%Q
  /\ (990 - 1000 <= -1)%Q
  /\ step add_latest false (seeded no_level) this =
       Ok ({| firstthismode := Some this;
              lastprevmode := Some no_level;
              save := Some this;
              lastthis := Some this;
              reallasttime := None |},
           Summarized (Some (NoPreviousState 0 "Driving")))
  /\ step add_latest false (seeded no_range) this = Raise TypeError.
Proof.
  cbv zeta. repeat split; try reflexivity. discriminate.
Qed.

(** ** Division by the elapsed time *)

Lemma charging_zero_elapsed first this sv lp lt o :
  total_seconds first sv = 0%Z ->
  charging first this sv lp lt <> Ok o.
Proof.
  intros Hz. unfold charging. rewrite Hz.
  destruct (deref lt) as [l|e]; cbn [bind]; [|discriminate].
  destruct (py_sub _ (usable_battery_level lp)) as [dblevel|e]; cbn [bind];
    [|discriminate].
  destruct (py_sub _ (battery_range lp)) as [drange|e]; cbn [bind];
    [|discriminate].
  cbn. discriminate.
Qed.

Lemma standby_zero_elapsed first this sv lp lt o :
  total_seconds first sv = 0%Z ->
  standby first this sv lp lt <> Ok o.
Proof.
  intros Hz. unfold standby. rewrite Hz.
  destruct (deref lt) as [l|e]; cbn [bind]; [|discriminate].
  destruct (py_sub (battery_range lp) _) as [drange|e]; cbn [bind];
    [|discriminate].
  destruct (py_sub (usable_battery_level lp) _) as [dlevel|e]; cbn [bind];
    [|discriminate].
  cbn. discriminate.
Qed.

Lemma conditioning_zero_elapsed first this sv lp lt o :
  total_seconds first sv = 0%Z ->
  conditioning first this sv lp lt <> Ok o.
Proof.
  intros Hz. rewrite conditioning_relabels_standby.
  destruct (standby first this sv lp lt) as [o'|e] eqn:E; cbn; [|discriminate].
  exfalso. exact (standby_zero_elapsed _ _ _ _ _ _ Hz E).
Qed.

(** The division by the level delta is guarded (line 308): a printed
    Charging line whose delta is not positive carries 0. *)
Lemma charging_zero_delta_sentinel first this sv lp lt s e dbl lv en dr mph kw ratio :
  charging first this sv lp lt =
    Ok (Closed (Some (Charged s e dbl lv en dr mph kw ratio))) ->
  (dbl <= 0)%Q ->
  kw = 0%Q.
Proof.
  unfold charging. intros H Hle.
  destruct (deref lt) as [l|x]; cbn [bind] in H; [|discriminate].
  destruct (py_sub _ (usable_battery_level lp)) as [dblevel|x]; cbn [bind] in H;
    [|discriminate].
  destruct (py_sub _ (battery_range lp)) as [drange|x]; cbn [bind] in H;
    [|discriminate].
  destruct (py_div (drange * 3600) _) as [m|x]; cbn [bind] in H; [|discriminate].
  destruct (Qlt_bool 0 dblevel) eqn:G.
  - exfalso.
    repeat match type of H with
           | bind ?m _ = _ => destruct m; cbn [bind] in H; [|discriminate]
           end.
    injection H as _ _ Hd _ _ _ _ _ _. subst dblevel.
    apply Qlt_bool_iff in G. exact (Qlt_not_le _ _ G Hle).
  - cbn [bind] in H.
    repeat match type of H with
           | bind ?m _ = _ => destruct m; cbn [bind] in H; [|discriminate]
           end.
    injection H as _ _ _ _ _ _ _ Hk _. symmetry. exact Hk.
Qed.

(** C1, on the code: two records of differing modes with the same time stamp
    close an episode of zero duration; for a Charging, a Standby and a
    Conditioning episode the rate is not replaced by a sentinel: the division
    by the elapsed seconds, which has no guard, raises ZeroDivisionError and
    ends the program. *)
Theorem zero_duration_raises :
  run add_latest false initial
      [sample 100 "Charging" 1000 50 150 5; sample 100 "Standby" 1000 50 150 5]
    = ([Seeded], Raise ZeroDivisionError)
  /\ run add_latest false initial
       [sample 100 "Standby" 1000 50 150 5; sample 100 "Driving" 1000 50 150 5]
    = ([Seeded], Raise ZeroDivisionError)
  /\ run add_latest false initial
       [sample 100 "Conditioning" 1000 50 150 5; sample 100 "Driving" 1000 50 150 5]
    = ([Seeded], Raise ZeroDivisionError).
Proof.
  repeat split; vm_compute; reflexivity.
Qed.

(** ** Baselines of Standby and Conditioning *)

(** C6, as amended: when a Standby or a Conditioning episode closes with the
    ranges and levels present and a duration that is not zero, the range
    baseline is the smaller of [save.battery_range] and
    [lastthis.battery_range], the level baseline is
    [lastthis.usable_battery_level] with no minimum taken, and the line
    reports [lastprevmode]'s level and range minus these baselines. *)
Theorem standby_conditioning_baselines :
  forall first this sv lp lt rs rl rp bp bl,
    battery_range sv = Some rs ->
    battery_range lt = Some rl ->
    battery_range lp = Some rp ->
    usable_battery_level lp = Some bp ->
    usable_battery_level lt = Some bl ->
    total_seconds first sv <> 0%Z ->
    let perday :=
      ((rp - min_range rs rl) / (inject_Z (total_seconds first sv) / 86400))%Q in
    standby first this sv lp (Some lt) =
      Ok (Closed (Some (SatLost (time first) (total_seconds first sv)
                                (bp - bl) (rp - min_range rs rl) perday bl)))
    /\ conditioning first this sv lp (Some lt) =
      Ok (Closed (Some (Conditioned (time first) (total_seconds first sv)
                                    (bp - bl) (rp - min_range rs rl) perday bl))).
Proof.
  intros first this sv lp lt rs rl rp bp bl Hrs Hrl Hrp Hbp Hbl Hz perday.
  assert (Hs : standby first this sv lp (Some lt) =
               Ok (Closed (Some (SatLost (time first) (total_seconds first sv)
                                  (bp - bl) (rp - min_range rs rl) perday bl)))).
  { unfold standby, perday, min_range. cbn [deref bind].
    rewrite Hrs, Hrl, Hrp, Hbp, Hbl. cbn [py_lt].
    destruct (Qlt_bool rs rl); cbn [py_sub bind py_div];
      rewrite (days_nonzero _ Hz); reflexivity. }
  split; [exact Hs|].
  rewrite conditioning_relabels_standby, Hs. reflexivity.
Qed.

Lemma standby_conditioning_baselines_witness :
  standby (sample 100 "Standby" 1000 80 200 5) (sample 300 "Driving" 1010 60 150 5)
          (sample 300 "Driving" 1010 60 150 5) (sample 0 "Charging" 1000 80 200 5)
          (Some (sample 200 "Standby" 1000 70 180 5)) =
    Ok (Closed (Some (SatLost 100 200 (80 - 70) (200 - min_range 150 180)
          ((200 - min_range 150 180) / (inject_Z 200 / 86400)) 70)))
  /\ conditioning (sample 100 "Standby" 1000 80 200 5)
          (sample 300 "Driving" 1010 60 150 5)
          (sample 300 "Driving" 1010 60 150 5) (sample 0 "Charging" 1000 80 200 5)
          (Some (sample 200 "Standby" 1000 70 180 5)) =
    Ok (Closed (Some (Conditioned 100 200 (80 - 70) (200 - min_range 150 180)
          ((200 - min_range 150 180) / (inject_Z 200 / 86400)) 70))).
Proof.
  apply (standby_conditioning_baselines
           (sample 100 "Standby" 1000 80 200 5) (sample 300 "Driving" 1010 60 150 5)
           (sample 300 "Driving" 1010 60 150 5) (sample 0 "Charging" 1000 80 200 5)
           (sample 200 "Standby" 1000 70 180 5)
           150%Q 180%Q 200%Q 80%Q 70%Q);
    try reflexivity; discriminate.
Defined.

(** C6, counterexample: a Standby episode whose last record shows 70% is
    closed by a Driving record showing 60%, after a Charging episode that
    ended at 80%.  The smaller of the two levels is 60, which would give
    20% lost; the printed line has 10%. *)
Lemma standby_level_is_not_the_minimum :
  printed (fst (run add_latest false initial
                  [sample 0 "Charging" 1000 80 200 5;
                   sample 100 "Standby" 1000 80 200 5;
                   sample 200 "Standby" 1000 70 180 5;
                   sample 300 "Driving" 1010 60 150 5])) =
    [Charged 0 100 (80 - 80) 80 5 (200 - 200) ((200 - 200) * 3600 / 100) 0
             (200 * 100 / 80);
     SatLost 100 200 (80 - 70) (200 - 150) ((200 - 150) / (200 / 86400)) 70]
  /\ spec_minBatteryLevel (sample 300 "Driving" 1010 60 150 5)
                          (sample 200 "Standby" 1000 70 180 5) = Some 60%Q
  /\ ~ (80 - 70 == 80 - 60)%Q.
Proof.
  split; [reflexivity|]. split; [reflexivity|]. discriminate.
Qed.

(** ** The peak level of Charging *)





(** ** Driving without an odometer reading *)

(** C5, as amended: when a Driving episode reaches a transition, the previous
    boundary has a level and an odometer reading, and the incoming record has
    no odometer reading, nothing is printed and [firstthismode] and
    [lastprevmode] keep their values; [save] has absorbed the record,
    [lastthis] becomes that merged record and a pending Polling time is
    cleared.  The summary of the same episode against the same previous
    boundary is attempted again at the next record whose mode is neither
    Polling nor Driving; a Driving record is merged without an attempt. *)
Theorem driving_without_odometer_deferred :
  forall add st this first lp,
    mode this <> "Polling" ->
    firstthismode st = Some first ->
    mode first = "Driving" ->
    mode this <> "Driving" ->
    lastprevmode st = Some lp ->
    lacks_previous_state (Some lp) = false ->
    truthy (odometer this) = false ->
    let sv := merged add st this in
    let st' :=
      {| firstthismode := Some first;
         lastprevmode := Some lp;
         save := Some sv;
         lastthis := Some sv;
         reallasttime := cleared st |} in
    step add false st this = Ok (st', Skipped)
    /\ printed_by Skipped = []
    /\ (forall next,
          mode next <> "Polling" -> mode next <> "Driving" ->
          step add false st' next =
            finish st' (add sv next)
              (driving first (incoming st' next) (add sv next) lp (Some sv)))
    /\ (forall next,
          mode next = "Driving" ->
          step add false st' next =
            Ok ({| firstthismode := Some first;
                   lastprevmode := Some lp;
                   save := Some (add sv next);
                   lastthis := Some (add sv next);
                   reallasttime := cleared st |}, Merged)).
Proof.
  intros add st this first lp Hp Hf Hd Hne Hlp Hlack Hodo sv st'.
  split; [|split; [reflexivity|split]].
  - rewrite (step_transition add st this first Hp Hf) by congruence.
    rewrite Hlp, (summarize_mode _ _ _ _ _ Hlack), Hd.
    cbn [String.eqb Ascii.eqb Bool.eqb].
    unfold driving.
    destruct (incoming_fields st this) as (_ & Ho & _). rewrite Ho, Hodo.
    cbn [negb]. unfold finish, deferred_state. cbn [bind].
    rewrite Hf, Hlp. reflexivity.
  - intros next Hnp Hnd.
    rewrite (step_transition add st' next first Hnp eq_refl) by congruence.
    cbn [lastprevmode lastthis st'].
    rewrite (summarize_mode _ _ _ _ _ Hlack), Hd.
    cbn [String.eqb Ascii.eqb Bool.eqb]. reflexivity.
  - intros next Hnd.
    rewrite (step_same_mode add st' next first) by (cbn; congruence).
    reflexivity.
Qed.

Lemma driving_without_odometer_deferred_witness :
  step add_latest false (seeded (sample 0 "Driving" 1000 80 200 0))
       (sample_no_odometer 100 "Standby" 70 180) =
    Ok ({| firstthismode := Some (sample 0 "Driving" 1000 80 200 0);
           lastprevmode := Some (sample 0 "Driving" 1000 80 200 0);
           save := Some (sample_no_odometer 100 "Standby" 70 180);
           lastthis := Some (sample_no_odometer 100 "Standby" 70 180);
           reallasttime := None |}, Skipped).
Proof.
  apply (proj1 (driving_without_odometer_deferred add_latest
                  (seeded (sample 0 "Driving" 1000 80 200 0))
                  (sample_no_odometer 100 "Standby" 70 180)
                  (sample 0 "Driving" 1000 80 200 0)
                  (sample 0 "Driving" 1000 80 200 0)
                  ltac:(discriminate) eq_refl eq_refl ltac:(discriminate)
                  eq_refl eq_refl eq_refl)).
Defined.

(** C5, counterexample: after a Driving record, a Standby record without an
    odometer reading is deferred, and [lastthis] and [save] no longer hold
    what they held; a Driving record that follows is merged and nothing is
    attempted again. *)
Lemma deferral_changes_lastthis :
  let st := seeded (sample 0 "Driving" 1000 80 200 0) in
  let st' :=
    {| firstthismode := Some (sample 0 "Driving" 1000 80 200 0);
       lastprevmode := Some (sample 0 "Driving" 1000 80 200 0);
       save := Some (sample_no_odometer 100 "Standby" 70 180);
       lastthis := Some (sample_no_odometer 100 "Standby" 70 180);
       reallasttime := None |} in
  step add_latest false st (sample_no_odometer 100 "Standby" 70 180)
    = Ok (st', Skipped)
  /\ lastthis st' <> lastthis st
  /\ save st' <> save st
  /\ fst (run add_latest false st' [sample 200 "Driving" 1010 60 150 0])
     = [Merged].
Proof.
  cbv zeta. repeat split; try reflexivity; discriminate.
Qed.

(** ** Runs *)

Lemma run_cons add ns st r rs :
  run add ns st (r :: rs) =
    match step add ns st r with
    | Ok (st', a) => let (acts, res) := run add ns st' rs in (a :: acts, res)
    | Raise e => ([], Raise e)
    end.
Proof. reflexivity. Qed.

Lemma run_app add ns rs1 : forall st acts1 st1 rs2,
  run add ns st rs1 = (acts1, Ok st1) ->
  run add ns st (rs1 ++ rs2) =
    (acts1 ++ fst (run add ns st1 rs2), snd (run add ns st1 rs2)).
Proof.
  induction rs1 as [|r rs1 IH]; intros st acts1 st1 rs2 H.
  - cbn in H. injection H as <- <-. cbn. destruct (run add ns st rs2); reflexivity.
  - rewrite run_cons in H. cbn [app]. rewrite run_cons.
    destruct (step add ns st r) as [[st' a]|e]; [|discriminate].
    destruct (run add ns st' rs1) as [acts res] eqn:E.
    injection H as <- ->.
    rewrite (IH _ _ _ rs2 E). reflexivity.
Qed.

Lemma merged_mode add st this :
  (forall s t, mode (add s t) = mode t) ->
  mode (merged add st this) = mode this.
Proof.
  intros Hadd. unfold merged. destruct (save st); auto.
Qed.

(** Leading Polling records leave the variables unset. *)
Lemma run_polling_prefix add ns pre : forall st,
  all_polling pre ->
  exists t,
    run add ns st pre =
      (map (fun _ => Polled) pre,
       Ok {| firstthismode := firstthismode st;
             lastprevmode := lastprevmode st;
             save := save st;
             lastthis := lastthis st;
             reallasttime := t |})
    /\ (pre = [] -> t = reallasttime st).
Proof.
  induction pre as [|r pre IH]; intros st Hall.
  - exists (reallasttime st). split; [destruct st; reflexivity|auto].
  - inversion Hall as [|r' pre' Hr Hpre]; subst.
    rewrite run_cons.
    pose proof (step_polling add ns st r Hr) as Hs.
    rewrite Hs.
    destruct (IH {| firstthismode := firstthismode st;
                    lastprevmode := lastprevmode st;
                    save := save st;
                    lastthis := lastthis st;
                    reallasttime := Some (time r) |} Hpre) as (t & Hrun & _).
    rewrite Hrun. exists t. split; [reflexivity|discriminate].
Qed.

(** The first record that is not of mode Polling seeds every variable. *)
Lemma step_seeds add ns r t :
  mode r <> "Polling" ->
  step add ns {| firstthismode := None; lastprevmode := None; save := None;
                 lastthis := None; reallasttime := t |} r
    = Ok (seeded r, Seeded).
Proof.
  intros Hp. unfold step. apply String.eqb_neq in Hp. rewrite Hp. reflexivity.
Qed.

(** Records of the open episode and Polling records keep [firstthismode]
    and [lastprevmode], and print nothing. *)
Lemma run_within_episode add mid : forall st first,
  firstthismode st = Some first ->
  within_episode (mode first) mid ->
  exists acts st',
    run add false st mid = (acts, Ok st')
    /\ printed acts = []
    /\ closures acts = 0%nat
    /\ firstthismode st' = Some first
    /\ lastprevmode st' = lastprevmode st
    /\ (mid = [] -> st' = st).
Proof.
  induction mid as [|r mid IH]; intros st first Hf Hall.
  - exists [], st. cbn. auto 10.
  - inversion Hall as [|r' mid' Hr Hmid]; subst.
    rewrite run_cons.
    destruct (string_dec (mode r) "Polling") as [Hp|Hp].
    + pose proof (step_polling add false st r Hp) as Hs.
      rewrite Hs.
      match goal with
      | |- context [run add false ?s mid] =>
        destruct (IH s first Hf Hmid)
          as (acts & st' & Hrun & Hpr & Hcl & Hf' & Hl' & _)
      end.
      rewrite Hrun.
      exists (Polled :: acts), st'. cbn in *. repeat split; auto; discriminate.
    + destruct Hr as [Hr|Hr]; [contradiction|].
      rewrite (step_same_mode add st r first Hp Hf (eq_sym Hr)).
      match goal with
      | |- context [run add false ?s mid] =>
        destruct (IH s first Hf Hmid)
          as (acts & st' & Hrun & Hpr & Hcl & Hf' & Hl' & _)
      end.
      rewrite Hrun.
      exists (Merged :: acts), st'. cbn in *. repeat split; auto; discriminate.
Qed.

(** A calculator never prints the line of the missing previous state. *)
Lemma summarize_with_previous_state first this sv lp lt l :
  lacks_previous_state (Some lp) = false ->
  summarize first this sv (Some lp) lt = Ok (Closed (Some l)) ->
  forall s m, l <> NoPreviousState s m.
Proof.
  intros Hlack H s m. rewrite (summarize_mode _ _ _ _ _ Hlack) in H.
  unfold charging, driving, standby, conditioning in H.
  repeat match type of H with
         | (if ?b then _ else _) = _ => destruct b
         | bind ?x _ = _ => destruct x; cbn [bind] in H; [|discriminate]
         end;
    try discriminate; injection H as <-; discriminate.
Qed.

(** With [--nosummary] nothing is ever printed. *)
Lemma nosummary_prints_nothing add rs : forall st,
  exists acts st',
    run add true st rs = (acts, Ok st') /\ printed acts = [].
Proof.
  induction rs as [|r rs IH]; intros st.
  - exists [], st. split; reflexivity.
  - rewrite run_cons.
    assert (Hstep : exists st1 a, step add true st r = Ok (st1, a)
                                  /\ printed_by a = []).
    { unfold step. destruct (mode r =? "Polling").
      - eexists _, _. split; reflexivity.
      - destruct (firstthismode st); eexists _, _; split; reflexivity. }
    destruct Hstep as (st1 & a & Hs & Ha). rewrite Hs.
    destruct (IH st1) as (acts & st' & Hrun & Hpr). rewrite Hrun.
    exists (a :: acts), st'. split; [reflexivity|].
    unfold printed in *. cbn [flat_map]. rewrite Ha, Hpr. reflexivity.
Qed.

(** ** The first episode *)

(** C2, as amended: the variables are seeded from the first record that is not
    of mode Polling, and [firstthismode] and [lastprevmode] still hold that
    record when the first episode closes, nothing having been printed.  The
    closing prints the line of the missing previous state when the first
    record has no level or no odometer reading (none or zero); when it has
    both, the calculator of the closing mode runs with the first record as
    previous boundary and whatever it prints is another line.  With
    [--nosummary] nothing is printed at all. *)
Theorem first_episode_closing :
  forall add pre r1 mid t,
    all_polling pre ->
    mode r1 <> "Polling" ->
    within_episode (mode r1) mid ->
    mode t <> "Polling" ->
    mode t <> mode r1 ->
    run add false initial (pre ++ [r1]) =
      ((map (fun _ => Polled) pre ++ [Seeded])%list, Ok (seeded r1))
    /\ (exists acts st,
          run add false initial (pre ++ r1 :: mid) = (acts, Ok st)
          /\ printed acts = []
          /\ firstthismode st = Some r1
          /\ lastprevmode st = Some r1
          /\ (lacks_previous_state (Some r1) = true ->
              step add false st t =
                Ok (advanced_state st (merged add st t),
                    Summarized (Some (NoPreviousState (time r1) (mode r1)))))
          /\ (lacks_previous_state (Some r1) = false ->
              step add false st t =
                finish st (merged add st t)
                  (summarize r1 (incoming st t) (merged add st t)
                             (Some r1) (lastthis st))
              /\ forall st' l,
                  step add false st t = Ok (st', Summarized (Some l)) ->
                  forall s m, l <> NoPreviousState s m))
    /\ (exists acts st,
          run add true initial (pre ++ r1 :: mid ++ [t]) = (acts, Ok st)
          /\ printed acts = []).
Proof.
  intros add pre r1 mid t Hpre Hr1 Hmid Ht Hne.
  destruct (run_polling_prefix add false pre initial Hpre) as (t0 & Hrun0 & _).
  cbn [firstthismode lastprevmode save lastthis initial] in Hrun0.
  assert (Hseed : forall rest,
            run add false initial (pre ++ r1 :: rest) =
              ((map (fun _ => Polled) pre
                ++ Seeded :: fst (run add false (seeded r1) rest))%list,
               snd (run add false (seeded r1) rest))).
  { intros rest. rewrite (run_app _ _ _ _ _ _ (r1 :: rest) Hrun0).
    rewrite run_cons, (step_seeds add false r1 t0 Hr1).
    destruct (run add false (seeded r1) rest); reflexivity. }
  split; [rewrite Hseed; reflexivity|]. split.
  - destruct (run_within_episode add mid (seeded r1) r1 eq_refl Hmid)
      as (acts & st & Hrun & Hpr & _ & Hf & Hl & _).
    cbn [lastprevmode seeded] in Hl.
    exists (map (fun _ => Polled) pre ++ Seeded :: acts)%list, st.
    split; [rewrite Hseed, Hrun; reflexivity|].
    split.
    { unfold printed in *. rewrite flat_map_app. cbn [flat_map printed_by app].
      rewrite Hpr, app_nil_r. clear. induction pre; cbn; auto. }
    split; [exact Hf|]. split; [exact Hl|].
    assert (Hstep : step add false st t =
                    finish st (merged add st t)
                      (summarize r1 (incoming st t) (merged add st t)
                                 (Some r1) (lastthis st))).
    { rewrite (step_transition add st t r1 Ht Hf) by congruence.
      rewrite Hl. reflexivity. }
    split.
    + intros Hlack. rewrite Hstep. unfold summarize. rewrite Hlack. reflexivity.
    + intros Hlack. split; [exact Hstep|].
      intros st' l Hs. rewrite Hstep in Hs. unfold finish in Hs.
      destruct (summarize _ _ _ _ _) as [o|e] eqn:E; cbn [bind] in Hs;
        [|discriminate].
      destruct o as [|p]; [discriminate|].
      injection Hs as _ Hp. subst p.
      exact (summarize_with_previous_state _ _ _ _ _ _ Hlack E).
  - destruct (nosummary_prints_nothing add (pre ++ r1 :: mid ++ [t]) initial)
      as (acts & st & Hrun & Hpr).
    exists acts, st. auto.
Qed.

Lemma first_episode_closing_witness :
  run add_latest false initial
      ([sample 50 "Polling" 1000 50 150 0] ++ [sample 100 "Charging" 1000 50 150 5]) =
    (map (fun _ => Polled) [sample 50 "Polling" 1000 50 150 0] ++ [Seeded],
     Ok (seeded (sample 100 "Charging" 1000 50 150 5))).
Proof.
  apply (proj1 (first_episode_closing add_latest
                  [sample 50 "Polling" 1000 50 150 0]
                  (sample 100 "Charging" 1000 50 150 5)
                  [sample 150 "Charging" 1000 60 180 8]
                  (sample 200 "Standby" 1000 80 250 12)
                  ltac:(repeat constructor)
                  ltac:(discriminate)
                  ltac:(repeat constructor; right; reflexivity)
                  ltac:(discriminate)
                  ltac:(discriminate))).
Defined.

(** C2, counterexample: the stream opens with a Charging record that has a
    level and an odometer reading; the Standby record that closes this first
    episode prints a Charging summary with numeric deltas, taken against the
    first record itself. *)
Lemma first_episode_prints_deltas :
  printed (fst (run add_latest false initial
                  [sample 100 "Charging" 1000 50 150 5;
                   sample 200 "Standby" 1000 80 250 12])) =
    [Charged 100 100 (80 - 50) 80 12 (250 - 150) ((250 - 150) * 3600 / 100)
             (12 * 100 / (80 - 50)) (250 * 100 / 80)].
Proof. reflexivity. Qed.

(** ** Counting closures *)

Lemma closures_cons a acts :
  closures (a :: acts) = ((if is_summarized a then 1 else 0) + closures acts)%nat.
Proof. unfold closures. cbn [filter]. destruct (is_summarized a); reflexivity. Qed.

Lemma segmented_modes_cons r rs :
  segmented_modes (r :: rs) =
    if mode r =? "Polling" then segmented_modes rs
    else mode r :: segmented_modes rs.
Proof.
  unfold segmented_modes. cbn [filter]. destruct (mode r =? "Polling"); reflexivity.
Qed.

(** While an episode is open and no summary is deferred, every boundary is
    closed once. *)
Lemma closures_open_episode add :
  (forall s t, mode (add s t) = mode t) ->
  forall rs st first acts st',
    firstthismode st = Some first ->
    run add false st rs = (acts, Ok st') ->
    existsb is_skipped acts = false ->
    closures acts = boundaries (mode first) (segmented_modes rs).
Proof.
  intros Hadd. induction rs as [|r rs IH]; intros st first acts st' Hf Hrun Hsk.
  - cbn in Hrun. injection Hrun as <- _. reflexivity.
  - rewrite run_cons in Hrun. rewrite segmented_modes_cons.
    destruct (string_dec (mode r) "Polling") as [Hp|Hp].
    + pose proof (step_polling add false st r Hp) as Hs.
      rewrite Hs in Hrun. rewrite Hp. cbn [String.eqb Ascii.eqb Bool.eqb].
      destruct (run add false _ rs) as [acts1 res] eqn:E.
      injection Hrun as <- ->. cbn [existsb is_skipped orb] in Hsk.
      rewrite closures_cons. cbn [is_summarized Nat.add].
      refine (IH _ first _ _ _ E Hsk); exact Hf.
    + apply String.eqb_neq in Hp as Hp'. rewrite Hp'. cbn [boundaries].
      destruct (string_dec (mode first) (mode r)) as [Hm|Hm].
      * rewrite (step_same_mode add st r first Hp Hf Hm) in Hrun.
        destruct (run add false _ rs) as [acts1 res] eqn:E.
        injection Hrun as <- ->. cbn [existsb is_skipped orb] in Hsk.
        rewrite closures_cons. cbn [is_summarized].
        rewrite Hm, String.eqb_refl.
        rewrite <- Hm. refine (IH _ first _ _ _ E Hsk); exact Hf.
      * rewrite (step_transition add st r first Hp Hf Hm) in Hrun.
        unfold finish in Hrun.
        destruct (summarize _ _ _ _ _) as [o|e]; cbn [bind] in Hrun; [|discriminate].
        apply String.eqb_neq in Hm. rewrite Hm.
        destruct o as [|p].
        -- destruct (run add false _ rs) as [acts1 res].
           injection Hrun as <- _. cbn in Hsk. discriminate.
        -- destruct (run add false _ rs) as [acts1 res] eqn:E.
           injection Hrun as <- ->. cbn [existsb is_skipped orb] in Hsk.
           rewrite closures_cons. cbn [is_summarized]. f_equal.
           rewrite <- (merged_mode add st r Hadd).
           refine (IH _ (merged add st r) _ _ _ E Hsk); reflexivity.
Qed.

(** C3, as amended: with summaries enabled and a merge that gives the merged
    record the mode of the record merged in, a run that ends without an
    exception and without deferring a Driving summary closes an episode, with
    a line or with the silent drop of a Driving episode, once for each pair
    of adjacent records of differing modes, the Polling records left out. *)
Theorem closures_equal_transitions :
  forall add,
    (forall s t, mode (add s t) = mode t) ->
    forall rs acts st,
      run add false initial rs = (acts, Ok st) ->
      existsb is_skipped acts = false ->
      closures acts = transitions rs.
Proof.
  intros add Hadd rs.
  assert (H : forall t acts st,
             run add false {| firstthismode := None; lastprevmode := None;
                              save := None; lastthis := None;
                              reallasttime := t |} rs = (acts, Ok st) ->
             existsb is_skipped acts = false ->
             closures acts = transitions rs).
  { induction rs as [|r rs IH]; intros t acts st Hrun Hsk.
    - cbn in Hrun. injection Hrun as <- _. reflexivity.
    - rewrite run_cons in Hrun. unfold transitions.
      rewrite segmented_modes_cons.
      destruct (string_dec (mode r) "Polling") as [Hp|Hp].
      + pose proof (step_polling add false
                    {| firstthismode := None; lastprevmode := None;
                       save := None; lastthis := None; reallasttime := t |}
                    r Hp) as Hs.
        rewrite Hs in Hrun. cbn [firstthismode lastprevmode save lastthis] in Hrun.
        rewrite Hp. cbn [String.eqb Ascii.eqb Bool.eqb].
        destruct (run add false _ rs) as [acts1 res] eqn:E.
        injection Hrun as <- ->. cbn [existsb is_skipped orb] in Hsk.
        rewrite closures_cons. cbn [is_summarized Nat.add].
        exact (IH _ _ _ E Hsk).
      + rewrite (step_seeds add false r t Hp) in Hrun.
        apply String.eqb_neq in Hp. rewrite Hp.
        destruct (run add false (seeded r) rs) as [acts1 res] eqn:E.
        injection Hrun as <- ->. cbn [existsb is_skipped orb] in Hsk.
        rewrite closures_cons. cbn [is_summarized Nat.add].
        exact (closures_open_episode add Hadd rs (seeded r) r _ _ eq_refl E Hsk). }
  intros acts st. exact (H None acts st).
Qed.

Lemma closures_equal_transitions_witness :
  closures [Seeded; Summarized (Some (Charged 0 100 (80 - 80) 80 5 (200 - 200)
                                   ((200 - 200) * 3600 / 100) 0 (200 * 100 / 80)));
            Merged; Polled;
            Summarized (Some (SatLost 100 200 (80 - 70) (200 - 150)
                                ((200 - 150) / (200 / 86400)) 70))] =
  transitions [sample 0 "Charging" 1000 80 200 5;
               sample 100 "Standby" 1000 80 200 5;
               sample 200 "Standby" 1000 70 180 5;
               sample 250 "Polling" 1000 70 180 5;
               sample 300 "Driving" 1010 60 150 5].
Proof.
  apply (closures_equal_transitions add_latest (fun s t => eq_refl)
           [sample 0 "Charging" 1000 80 200 5;
            sample 100 "Standby" 1000 80 200 5;
            sample 200 "Standby" 1000 70 180 5;
            sample 250 "Polling" 1000 70 180 5;
            sample 300 "Driving" 1010 60 150 5]
           _ (advanced_state
                {| firstthismode := Some (sample 100 "Standby" 1000 80 200 5);
                   lastprevmode := Some (sample 0 "Charging" 1000 80 200 5);
                   save := Some (sample 200 "Standby" 1000 70 180 5);
                   lastthis := Some (sample 200 "Standby" 1000 70 180 5);
                   reallasttime := Some 250%Z |}
                (sample 300 "Driving" 1010 60 150 5)));
    reflexivity.
Defined.

(** C3, counterexample: Driving, then Standby without an odometer reading,
    then Driving again.  There are two mode boundaries; the Standby record
    defers the summary, the Driving record that follows is merged into the
    episode still open, and no calculator is invoked. *)
Lemma deferral_loses_boundaries :
  transitions [sample 0 "Driving" 1000 80 200 0;
               sample_no_odometer 100 "Standby" 70 180;
               sample 200 "Driving" 1010 60 150 0] = 2%nat
  /\ fst (run add_latest false initial
            [sample 0 "Driving" 1000 80 200 0;
             sample_no_odometer 100 "Standby" 70 180;
             sample 200 "Driving" 1010 60 150 0]) = [Seeded; Skipped; Merged]
  /\ closures [Seeded; Skipped; Merged] = 0%nat
  /\ printed [Seeded; Skipped; Merged] = [].
Proof. repeat split; reflexivity. Qed.

End ParserFacts.

(** * Facts about the connection *)

Module TeslajsonFacts.

Import Teslajson.

Open Scope list_scope.
Open Scope string_scope.

(** ** Strings *)

Lemma length_append (a b : string) :
  String.length (a ++ b) = (String.length a + String.length b)%nat.
Proof. induction a as [|c a IH]; cbn; [reflexivity|now rewrite IH]. Qed.

Lemma substring_all (s : string) : substring 0 (String.length s) s = s.
Proof. induction s as [|c s IH]; cbn; [reflexivity|now rewrite IH]. Qed.

Lemma substring_skip (a b : string) (m : nat) :
  substring (String.length a) m (a ++ b) = substring 0 m b.
Proof. induction a as [|c a IH]; cbn; [reflexivity|exact IH]. Qed.

Lemma substring_split (s : string) : forall n,
  (n <= String.length s)%nat ->
  s = substring 0 n s ++ substring n (String.length s - n) s.
Proof.
  induction s as [|c s IH]; intros n Hn.
  - destruct n; cbn in *; [reflexivity|lia].
  - destruct n as [|n].
    + cbn. now rewrite substring_all.
    + cbn in *. f_equal. apply IH. lia.
Qed.

Lemma startswith_spec (s p : string) :
  startswith s p = true <-> exists rest, s = p ++ rest.
Proof.
  unfold startswith. revert s.
  induction p as [|c p IH]; intros s.
  - split; [intros _; exists s; reflexivity|].
    intros _. destruct s; reflexivity.
  - destruct s as [|d s]; cbn.
    + split; [discriminate|]. intros (rest & H). discriminate.
    + destruct (ascii_dec c d) as [->|Hcd].
      * rewrite IH. split; intros (rest & H); exists rest.
        -- now rewrite H.
        -- now injection H.
      * split; [discriminate|]. intros (rest & H). injection H as H1 _.
        congruence.
Qed.

Lemma slice_from_append (p rest : string) :
  slice_from (String.length p) (p ++ rest) = rest.
Proof.
  unfold slice_from. rewrite substring_skip, length_append.
  replace (String.length p + String.length rest - String.length p)%nat
    with (String.length rest) by lia.
  apply substring_all.
Qed.

Lemma contains_spec (c : ascii) (s : string) :
  contains c s = true <-> exists a b, s = a ++ String c b.
Proof.
  induction s as [|d s IH]; cbn.
  - split; [discriminate|]. intros (a & b & H). destruct a; discriminate.
  - rewrite orb_true_iff, IH, Ascii.eqb_eq. split.
    + intros [->|(a & b & ->)].
      * exists "", s. reflexivity.
      * exists (String d a), b. reflexivity.
    + intros (a & b & H). destruct a as [|e a]; cbn in H.
      * injection H as -> _. now left.
      * injection H as _ ->. right. now exists a, b.
Qed.

Lemma endswith_spec (s suffix : string) :
  endswith s suffix = true <-> exists pre, s = pre ++ suffix.
Proof.
  unfold endswith. rewrite andb_true_iff, Nat.leb_le, String.eqb_eq. split.
  - intros (Hle & Hsub).
    remember (String.length suffix) as n eqn:Hn.
    exists (substring 0 (String.length s - n) s).
    rewrite <- Hsub.
    pose proof (substring_split s (String.length s - n) ltac:(lia)) as Hsp.
    replace (String.length s - (String.length s - n))%nat with n in Hsp by lia.
    exact Hsp.
  - intros (pre & ->). rewrite length_append. split; [lia|].
    replace (String.length pre + String.length suffix - String.length suffix)%nat
      with (String.length pre) by lia.
    rewrite substring_skip. apply substring_all.
Qed.

(** The test of line 64 lets through exactly the base URLs that meet its
    three conditions. *)
Lemma unexpected_url_spec (u : string) :
  unexpected_url u = false <-> passes_url_test u.
Proof.
  unfold unexpected_url, passes_url_test.
  rewrite !orb_false_iff, !negb_false_iff, orb_true_iff, !endswith_spec,
    startswith_spec.
  split.
  - intros ((Hp & Hc) & He). split.
    + destruct Hp as (rest & ->). exists rest. split; [reflexivity|].
      intros a b Hab. rewrite slice_from_append in Hc.
      assert (Ht : contains "/" rest = true)
        by (apply contains_spec; now exists a, b).
      congruence.
    + destruct He as [(pre & H)|(pre & H)]; exists pre; auto.
  - intros ((rest & Hu & Hno) & pre & He). split; [split|].
    + now exists rest.
    + subst u. rewrite slice_from_append.
      destruct (contains "/" rest) eqn:E; [|reflexivity].
      apply contains_spec in E. destruct E as (a & b & E).
      exfalso. exact (Hno a b E).
    + destruct He as [H|H]; [left|right]; now exists pre.
Qed.

(** ** Requests of the constructor *)

Lemma open_request_url (b path : string) (hdrs : dict) (body : option dict) :
  url (open_request b path hdrs body "") = b ++ path.
Proof. reflexivity. Qed.

Lemma get_vehicles_requests net now b a hd oa ex :
  Forall (fun r => exists path, url r = b ++ path)
         (fst (get_vehicles net now b a hd oa ex)).
Proof.
  unfold get_vehicles.
  destruct (expired now ex).
  - destruct oa as [o|]; cbn.
    + destruct (fetch_token net _) as [t|e]; cbn.
      * destruct (fetch_vehicles net _) as [ids|e]; cbn;
          repeat constructor; eexists; reflexivity.
      * repeat constructor. eexists; reflexivity.
    + constructor.
  - cbn. destruct (fetch_vehicles net _) as [ids|e]; cbn;
      repeat constructor; eexists; reflexivity.
Qed.

(** When the base URL fetched from pastebin fails the test of line 64 (it
    does not start with [https://], or has a slash after that prefix, or
    ends neither in [.teslamotors.com] nor in [.tesla.com]) the constructor
    raises IOError after the pastebin request alone; and whatever the
    network answers, every other request the constructor issues goes to a
    fetched base URL that passes that test, as does the base URL of a
    connection it returns. *)
Theorem unexpected_baseurl_raises_IOError :
  forall net now email password access_token,
    (forall c,
        fetch_client net pastebin = Ok c ->
        ~ passes_url_test (client_baseurl c) ->
        Connection_init net now email password access_token
          = ([pastebin], Raise IOError))
    /\ Forall (fun r =>
                 r = pastebin
                 \/ exists c path,
                     fetch_client net pastebin = Ok c
                     /\ passes_url_test (client_baseurl c)
                     /\ url r = client_baseurl c ++ path)
              (fst (Connection_init net now email password access_token))
    /\ (forall conn,
          snd (Connection_init net now email password access_token) = Ok conn ->
          passes_url_test (baseurl conn)).
Proof.
  intros net now email password access_token. split; [|split].
  - intros c Hc Hbad. unfold Connection_init. rewrite Hc. cbn [io_bind].
    destruct (unexpected_url (client_baseurl c)) eqn:E; [reflexivity|].
    exfalso. apply Hbad. now apply unexpected_url_spec.
  - unfold Connection_init.
    destruct (fetch_client net pastebin) as [c|e] eqn:Hc; cbn [io_bind fst].
    + destruct (unexpected_url (client_baseurl c)) eqn:E.
      * cbn. repeat constructor.
      * apply unexpected_url_spec in E.
        match goal with
        | |- context [get_vehicles ?n ?w ?b ?a ?h ?o ?x] =>
          pose proof (get_vehicles_requests n w b a h o x) as Hreq;
          destruct (get_vehicles n w b a h o x) as [tr [[[hd ex] ids]|e]]
        end; cbn [fst io_bind io_ret] in *.
        -- rewrite app_nil_r. constructor; [now left|].
           eapply Forall_impl; [|exact Hreq].
           intros r (path & Hr). right. now exists c, path.
        -- constructor; [now left|].
           eapply Forall_impl; [|exact Hreq].
           intros r (path & Hr). right. now exists c, path.
    + repeat constructor.
  - intros conn. unfold Connection_init.
    destruct (fetch_client net pastebin) as [c|e]; cbn [io_bind snd];
      [|discriminate].
    destruct (unexpected_url (client_baseurl c)) eqn:E; [discriminate|].
    apply unexpected_url_spec in E.
    destruct (get_vehicles _ _ _ _ _ _ _) as [tr [[[hd ex] ids]|e]];
      cbn [io_bind io_ret snd]; [|discriminate].
    intros H. injection H as <-. exact E.
Qed.

Lemma unexpected_baseurl_raises_IOError_witness :
  Connection_init (sample_network "https://owner-api.teslamotors.com/evil")
                  5000 "me" "pw" "" = ([pastebin], Raise IOError).
Proof.
  apply (proj1 (unexpected_baseurl_raises_IOError
                  (sample_network "https://owner-api.teslamotors.com/evil")
                  5000 "me" "pw" "")
               (sample_client "https://owner-api.teslamotors.com/evil")
               eq_refl).
  intros H. apply unexpected_url_spec in H. vm_compute in H. discriminate.
Defined.

(** C10, on the code: the test of line 64 reads the text of the base URL and
    not its host.  The base URL [https://evil.com?.tesla.com] begins with
    [https://], has no slash after it and ends in [.tesla.com], so nothing
    is raised; the constructor then sends the e-mail address, the password
    and the client secret to [https://evil.com?.tesla.com/oauth/token], a
    URL whose host is [evil.com], and the vehicle request after it. *)
Theorem lookalike_base_url_is_accepted :
  unexpected_url "https://evil.com?.tesla.com" = false
  /\ Connection_init (sample_network "https://evil.com?.tesla.com")
                     5000 "me" "pw" "" =
       ([pastebin;
         {| url := "https://evil.com?.tesla.com/oauth/token";
            headers := [];
            data := Some [("grant_type", "password");
                          ("client_id", "id");
                          ("client_secret", "secret");
                          ("email", "me");
                          ("password", "pw")] |};
         {| url := "https://evil.com?.tesla.com/api/1/vehicles";
            headers := [("Authorization", "Bearer abc");
                        ("User-Agent", "teslajson.py 1.3.1")];
            data := None |}],
        Ok {| baseurl := "https://evil.com?.tesla.com";
              api := "/api/1/";
              head := [("Authorization", "Bearer abc");
                       ("User-Agent", "teslajson.py 1.3.1")];
              oauth := Some [("grant_type", "password");
                             ("client_id", "id");
                             ("client_secret", "secret");
                             ("email", "me");
                             ("password", "pw")];
              expiration := Some (1000 + 100000 - 86400)%Z;
              vehicles := [7%Z] |}).
Proof.
  split; reflexivity.
Qed.

End TeslajsonFacts.

(** * Further facts about the parser *)

Module DriverFacts.

Import Parser ParserFacts Driver.

Open Scope string_scope.
Open Scope list_scope.

(** ** Which exceptions can be raised *)

Lemma bind_raises {A B : Type} (m : result A) (k : A -> result B) e :
  bind m k = Raise e ->
  m = Raise e \/ exists a, m = Ok a /\ k a = Raise e.
Proof.
  destruct m as [a|e']; cbn; intros H; [right; now exists a|left; congruence].
Qed.

Lemma py_sub_raises a b e : py_sub a b = Raise e -> e = TypeError.
Proof. destruct a, b; cbn; congruence. Qed.

Lemma py_mul_raises a k e : py_mul a k = Raise e -> e = TypeError.
Proof. destruct a; cbn; congruence. Qed.

Lemma py_num_raises a e : py_num a = Raise e -> e = TypeError.
Proof. destruct a; cbn; congruence. Qed.

Lemma py_div_raises x b e : py_div x b = Raise e -> arithmetic e.
Proof.
  unfold arithmetic. destruct b as [y|]; cbn; [destruct (Qeq_bool y 0)|];
    intros H; try discriminate; injection H as <-; auto.
Qed.

Ltac raised H :=
  lazymatch type of H with
  | bind _ _ = Raise _ =>
    apply bind_raises in H; destruct H as [H|(? & _ & H)]; raised H
  | (if ?b then _ else _) = Raise _ => destruct b; raised H
  | py_sub _ _ = Raise _ => left; exact (py_sub_raises _ _ _ H)
  | py_mul _ _ = Raise _ => left; exact (py_mul_raises _ _ _ H)
  | py_num _ = Raise _ => left; exact (py_num_raises _ _ H)
  | py_div _ _ = Raise _ => exact (py_div_raises _ _ _ H)
  | Ok _ = Raise _ => discriminate H
  | _ => idtac
  end.

Lemma summarize_raises first this sv lp lt e :
  summarize first this sv lp (Some lt) = Raise e -> arithmetic e.
Proof.
  unfold summarize, charging, driving, standby, conditioning.
  cbn [deref bind]. cbv zeta. intros H.
  destruct lp as [p|]; [|discriminate].
  raised H.
Qed.

Lemma step_settled add ns st r :
  settled st ->
  match step add ns st r with
  | Ok (st', _) => settled st'
  | Raise e => arithmetic e
  end.
Proof.
  intros Hst. unfold step.
  destruct (mode r =? "Polling").
  - destruct Hst as [H|(f & p & s & H)]; [left|right; exists f, p, s]; exact H.
  - destruct Hst as [H|(f & p & s & H)]; unfold records_of in H;
      injection H as H1 H2 H3 H4; rewrite H1.
    + right. eexists _, _, _. reflexivity.
    + destruct ns; [right; eexists _, _, _; reflexivity|].
      destruct (negb (mode f =? mode r)).
      * rewrite H2, H4.
        destruct (summarize _ _ _ _ _) as [o|e] eqn:E; cbn [bind].
        -- destruct o; right; eexists _, _, _; reflexivity.
        -- exact (summarize_raises _ _ _ _ _ _ E).
      * right. eexists _, _, _. unfold records_of; cbn. rewrite H2. reflexivity.
Qed.

Lemma run_settled add ns rs : forall st,
  settled st ->
  match snd (run add ns st rs) with
  | Ok st' => settled st'
  | Raise e => arithmetic e
  end.
Proof.
  induction rs as [|r rs IH]; intros st Hst; [exact Hst|].
  rewrite run_cons. pose proof (step_settled add ns st r Hst) as Hs.
  destruct (step add ns st r) as [[st' a]|e]; [|exact Hs].
  specialize (IH st' Hs).
  destruct (run add ns st' rs) as [acts res]. exact IH.
Qed.

(** X1: whatever the records, the merge and the flag, a run from the initial
    state never reads a field of [firstthismode], [lastprevmode], [save] or
    [lastthis] while that variable is still [None], so it never ends with
    the AttributeError of such a read; and when it ends normally either no
    record was merged or all four variables hold a record, [lastthis] being
    [save]. *)
Theorem variables_are_set_before_they_are_read :
  forall add nosummary rs,
    match snd (run add nosummary initial rs) with
    | Ok st => settled st
    | Raise AttributeError => False
    | Raise _ => True
    end.
Proof.
  intros add ns rs.
  pose proof (run_settled add ns rs initial (or_introl eq_refl)) as H.
  destruct (snd (run add ns initial rs)) as [st|e]; [exact H|].
  destruct H as [->| ->]; exact I.
Qed.

(** ** Runs with [--nosummary] *)

Lemma run_nosummary add rs : forall a t,
  exists t',
    run add true {| firstthismode := a; lastprevmode := a; save := a;
                    lastthis := a; reallasttime := t |} rs =
      (map (fun r => if mode r =? "Polling" then Polled else Seeded) rs,
       Ok {| firstthismode := accumulate add a rs;
             lastprevmode := accumulate add a rs;
             save := accumulate add a rs;
             lastthis := accumulate add a rs;
             reallasttime := t' |}).
Proof.
  induction rs as [|r rs IH]; intros a t.
  - exists t. reflexivity.
  - rewrite run_cons. unfold step, accumulate. cbn [fold_left map].
    destruct (mode r =? "Polling").
    + destruct (IH a (Some (time r))) as (t' & Hrun).
      cbn [firstthismode lastprevmode save lastthis]. rewrite Hrun.
      exists t'. reflexivity.
    + unfold merged. cbn [save firstthismode].
      set (sv := match a with Some s => add s r | None => r end).
      destruct (IH (Some sv) None) as (t' & Hrun).
      assert (Hm : match a with
                   | Some _ => _ | None => _
                   end = Ok ({| firstthismode := Some sv; lastprevmode := Some sv;
                                save := Some sv; lastthis := Some sv;
                                reallasttime := None |}, Seeded))
        by (destruct a; reflexivity).
      rewrite Hm, Hrun. exists t'. reflexivity.
Qed.

(** X3: with [--nosummary] a run never raises and never summarizes: every
    Polling record is passed over, every other record seeds the variables
    anew, and at the end [firstthismode], [lastprevmode], [save] and
    [lastthis] all hold the merge of the records that are not of mode
    Polling. *)
Theorem nosummary_only_accumulates :
  forall add rs,
    fst (run add true initial rs) =
      map (fun r => if mode r =? "Polling" then Polled else Seeded) rs
    /\ exists st,
         snd (run add true initial rs) = Ok st
         /\ records_of st =
              (accumulate add None rs, accumulate add None rs,
               accumulate add None rs, accumulate add None rs).
Proof.
  intros add rs. destruct (run_nosummary add rs None None) as (t' & Hrun).
  unfold initial. rewrite Hrun. split; [reflexivity|].
  eexists. split; reflexivity.
Qed.

(** ** The diagnostics *)

(** X4: when a transition is detected and the previous boundary has no level
    or no odometer reading (none or zero), the step prints the line of the
    missing previous state with the start and the mode of the closing
    episode and advances the variables; this holds for every closing mode,
    Driving without an odometer reading included, and whatever else is
    missing nothing is raised. *)
Theorem missing_previous_state_is_reported :
  forall add st this first,
    mode this <> "Polling" ->
    firstthismode st = Some first ->
    mode first <> mode this ->
    lacks_previous_state (lastprevmode st) = true ->
    step add false st this =
      Ok ({| firstthismode := Some (merged add st this);
             lastprevmode := lastthis st;
             save := Some (merged add st this);
             lastthis := Some (merged add st this);
             reallasttime := cleared st |},
          Summarized (Some (NoPreviousState (time first) (mode first)))).
Proof.
  intros add st this first Hp Hf Hm Hlack.
  rewrite (step_transition add st this first Hp Hf Hm).
  unfold summarize. rewrite Hlack.
  destruct (lastprevmode st); reflexivity.
Qed.

Lemma missing_previous_state_is_reported_witness :
  step add_latest false
       (seeded (sample_no_odometer 0 "Driving" 80 200))
       (sample_no_odometer 100 "Standby" 70 180) =
    Ok ({| firstthismode := Some (sample_no_odometer 100 "Standby" 70 180);
           lastprevmode := Some (sample_no_odometer 0 "Driving" 80 200);
           save := Some (sample_no_odometer 100 "Standby" 70 180);
           lastthis := Some (sample_no_odometer 100 "Standby" 70 180);
           reallasttime := None |},
        Summarized (Some (NoPreviousState 0 "Driving"))).
Proof.
  apply (missing_previous_state_is_reported add_latest
           (seeded (sample_no_odometer 0 "Driving" 80 200))
           (sample_no_odometer 100 "Standby" 70 180)
           (sample_no_odometer 0 "Driving" 80 200));
    try reflexivity; discriminate.
Defined.

(** X5: when the closing episode has a mode other than Charging, Driving,
    Standby and Conditioning and the previous boundary has a level and an
    odometer reading, the step prints the line of the unhandled mode,
    advances the variables and raises nothing, whatever the other fields. *)
Theorem unhandled_mode_is_reported :
  forall add st this first lp,
    mode this <> "Polling" ->
    firstthismode st = Some first ->
    mode first <> mode this ->
    lastprevmode st = Some lp ->
    lacks_previous_state (Some lp) = false ->
    mode first <> "Charging" ->
    mode first <> "Driving" ->
    mode first <> "Standby" ->
    mode first <> "Conditioning" ->
    step add false st this =
      Ok ({| firstthismode := Some (merged add st this);
             lastprevmode := lastthis st;
             save := Some (merged add st this);
             lastthis := Some (merged add st this);
             reallasttime := cleared st |},
          Summarized (Some (DoNotHandle (mode first)))).
Proof.
  intros add st this first lp Hp Hf Hm Hlp Hlack H1 H2 H3 H4.
  rewrite (step_transition add st this first Hp Hf Hm).
  rewrite Hlp, (summarize_mode _ _ _ _ _ Hlack).
  apply String.eqb_neq in H1, H2, H3, H4. rewrite H1, H2, H3, H4.
  reflexivity.
Qed.

Lemma unhandled_mode_is_reported_witness :
  step add_latest false
       (seeded (sample 0 "Offline" 1000 80 200 0))
       (sample_no_odometer 100 "Standby" 70 180) =
    Ok ({| firstthismode := Some (sample_no_odometer 100 "Standby" 70 180);
           lastprevmode := Some (sample 0 "Offline" 1000 80 200 0);
           save := Some (sample_no_odometer 100 "Standby" 70 180);
           lastthis := Some (sample_no_odometer 100 "Standby" 70 180);
           reallasttime := None |},
        Summarized (Some (DoNotHandle "Offline"))).
Proof.
  apply (unhandled_mode_is_reported add_latest
           (seeded (sample 0 "Offline" 1000 80 200 0))
           (sample_no_odometer 100 "Standby" 70 180)
           (sample 0 "Offline" 1000 80 200 0)
           (sample 0 "Offline" 1000 80 200 0));
    try reflexivity; discriminate.
Defined.

(** ** Files *)

(** X11: the variables are not reset between files: reading the files one
    after the other gives the actions and the end of reading the
    concatenation of their records, so an episode can span a file boundary. *)
Theorem run_files_is_run_on_concatenation :
  forall add nosummary files st,
    run_files add nosummary st files = run add nosummary st (List.concat files).
Proof.
  intros add ns files. induction files as [|f files IH]; intros st.
  - reflexivity.
  - cbn [run_files List.concat].
    destruct (run add ns st f) as [acts [st'|e]] eqn:E.
    + rewrite (run_app add ns f st acts st' (List.concat files) E), IH.
      destruct (run add ns st' (List.concat files)); reflexivity.
    + clear IH. revert st acts E.
      induction f as [|r f IHf]; intros st acts E; [discriminate|].
      cbn [app]. rewrite run_cons in *.
      destruct (step add ns st r) as [[st1 a]|e1]; [|symmetry; exact E].
      destruct (run add ns st1 f) as [acts1 res1] eqn:E1.
      injection E as <- ->.
      rewrite <- (IHf st1 acts1 E1). reflexivity.
Qed.

(** ** The Charging and Driving summaries *)

Lemma Qeq_bool_nonzero (q : Q) : ~ (q == 0)%Q -> Qeq_bool q 0 = false.
Proof.
  intros H. destruct (Qeq_bool q 0) eqn:E; [|reflexivity].
  exfalso. apply H. now apply Qeq_bool_eq.
Qed.

Lemma seconds_nonzero (z : Z) : z <> 0%Z -> Qeq_bool (inject_Z z) 0 = false.
Proof.
  intros Hz. apply Qeq_bool_nonzero. unfold Qeq. cbn. lia.
Qed.

Lemma positive_nonzero (q : Q) : Qlt_bool 0 q = true -> Qeq_bool q 0 = false.
Proof.
  intros H. apply Qlt_bool_iff in H. apply Qeq_bool_nonzero.
  intros E. rewrite E in H. exact (Qlt_irrefl 0 H).
Qed.

Section ChargingValues.

Variables first this sv lp lt : record.
Variables rs rl rp bs bl bp en : Q.
Hypothesis Hrs : battery_range sv = Some rs.
Hypothesis Hrl : battery_range lt = Some rl.
Hypothesis Hrp : battery_range lp = Some rp.
Hypothesis Hbs : usable_battery_level sv = Some bs.
Hypothesis Hbl : usable_battery_level lt = Some bl.
Hypothesis Hbp : usable_battery_level lp = Some bp.
Hypothesis Hen : charge_energy_added sv = Some en.

Let dblevel : Q := (max_value bs bl - bp)%Q.
Let drange : Q := (max_value rs rl - rp)%Q.

(** The Charging calculator once the fields are read. *)
Lemma charging_unfolded :
  charging first this sv lp (Some lt) =
    (mph <- py_div (drange * 3600)%Q (Some (inject_Z (total_seconds first sv))) ;;
     kw <- (if Qlt_bool 0 dblevel
            then py_div (en * 100)%Q (Some dblevel) else Ok 0%Q) ;;
     ratio <- py_div (max_value rs rl * 100)%Q (Some bs) ;;
     Ok (Closed (Some (Charged (time first) (total_seconds first sv)
                               dblevel (max_value bs bl) en drange mph kw ratio)))).
Proof.
  unfold charging, dblevel, drange, max_value. cbn [deref bind]. cbv zeta.
  rewrite Hrs, Hrl, Hrp, Hbs, Hbl, Hbp, Hen. unfold py_gt. cbn [py_lt].
  destruct (Qlt_bool rl rs), (Qlt_bool bl bs); cbn [py_sub py_mul bind];
    repeat match goal with
           | |- bind ?m _ = bind ?m _ => destruct m; cbn [bind]; [|reflexivity]
           | |- context [if ?b then _ else _] => destruct b; cbn [bind py_num]
           end; reflexivity.
Qed.

Lemma charging_prints_or_divides_by_zero :
  ~ (bs == 0)%Q ->
  charging first this sv lp (Some lt) = Raise ZeroDivisionError
  \/ exists elapsed mph,
       charging first this sv lp (Some lt) =
         Ok (Closed (Some (Charged (time first) elapsed
               dblevel (max_value bs bl) en drange mph
               (if Qlt_bool 0 dblevel then en * 100 / dblevel else 0)
               (max_value rs rl * 100 / bs)))).
Proof.
  intros Hb. rewrite charging_unfolded. unfold py_div.
  destruct (Qeq_bool (inject_Z (total_seconds first sv)) 0); [now left|].
  right. exists (total_seconds first sv). eexists.
  rewrite (Qeq_bool_nonzero _ Hb). cbn [bind].
  destruct (Qlt_bool 0 dblevel) eqn:E; [rewrite (positive_nonzero _ E)|];
    reflexivity.
Qed.

Lemma charging_zero_level_divides_by_zero :
  (bs == 0)%Q ->
  charging first this sv lp (Some lt) = Raise ZeroDivisionError.
Proof.
  intros Hb. rewrite charging_unfolded. unfold py_div.
  destruct (Qeq_bool (inject_Z (total_seconds first sv)) 0); [reflexivity|].
  cbn [bind]. apply Qeq_bool_iff in Hb. rewrite Hb.
  destruct (Qlt_bool 0 dblevel) eqn:E; [rewrite (positive_nonzero _ E)|];
    reflexivity.
Qed.

End ChargingValues.

(** X6: when a Charging episode closes with the ranges, the levels and the
    energy present and a level of [save] that is not zero, either the
    division of the rate raises ZeroDivisionError or a line is printed that
    reports the higher of the levels of [save] and [lastthis], that level
    minus the level of [lastprevmode], the energy of [save], the higher
    range minus the range of [lastprevmode], the energy times 100 over the
    level delta when the delta is positive and 0 otherwise, and the higher
    range times 100 over the level of [save]; the duration and the rate of
    the line are left open. *)
Theorem charging_line_values :
  forall first this sv lp lt rs rl rp bs bl bp en,
    battery_range sv = Some rs ->
    battery_range lt = Some rl ->
    battery_range lp = Some rp ->
    usable_battery_level sv = Some bs ->
    usable_battery_level lt = Some bl ->
    usable_battery_level lp = Some bp ->
    charge_energy_added sv = Some en ->
    ~ (bs == 0)%Q ->
    charging first this sv lp (Some lt) = Raise ZeroDivisionError
    \/ exists elapsed mph,
         charging first this sv lp (Some lt) =
           Ok (Closed (Some (Charged (time first) elapsed
                 (max_value bs bl - bp) (max_value bs bl) en
                 (max_value rs rl - rp) mph
                 (if Qlt_bool 0 (max_value bs bl - bp)
                  then en * 100 / (max_value bs bl - bp) else 0)
                 (max_value rs rl * 100 / bs)))).
Proof.
  intros. now apply charging_prints_or_divides_by_zero.
Qed.

Lemma charging_line_values_witness :
  charging (sample 0 "Charging" 1000 50 150 0) (sample 3600 "Standby" 1000 80 250 12)
           (sample 3600 "Standby" 1000 80 250 12) (sample 0 "Driving" 1000 50 150 0)
           (Some (sample 1800 "Charging" 1000 65 200 6)) = Raise ZeroDivisionError
  \/ exists elapsed mph,
       charging (sample 0 "Charging" 1000 50 150 0)
                (sample 3600 "Standby" 1000 80 250 12)
                (sample 3600 "Standby" 1000 80 250 12)
                (sample 0 "Driving" 1000 50 150 0)
                (Some (sample 1800 "Charging" 1000 65 200 6)) =
         Ok (Closed (Some (Charged 0 elapsed
               (max_value 80 65 - 50) (max_value 80 65) 12 (max_value 250 200 - 150)
               mph
               (if Qlt_bool 0 (max_value 80 65 - 50)
                then 12 * 100 / (max_value 80 65 - 50) else 0)
               (max_value 250 200 * 100 / 80)))).
Proof.
  apply (charging_line_values
           (sample 0 "Charging" 1000 50 150 0) (sample 3600 "Standby" 1000 80 250 12)
           (sample 3600 "Standby" 1000 80 250 12) (sample 0 "Driving" 1000 50 150 0)
           (sample 1800 "Charging" 1000 65 200 6)
           250%Q 200%Q 150%Q 80%Q 65%Q 50%Q 12%Q);
    try reflexivity; discriminate.
Defined.

(** X7: when a Charging episode closes with the ranges, the levels and the
    energy present and the level of [save] is zero, ZeroDivisionError is
    raised whatever the elapsed time: the ratio of the range to the level of
    [save] is divided without a guard. *)
Theorem charging_zero_level_raises :
  forall first this sv lp lt rs rl rp bs bl bp en,
    battery_range sv = Some rs ->
    battery_range lt = Some rl ->
    battery_range lp = Some rp ->
    usable_battery_level sv = Some bs ->
    usable_battery_level lt = Some bl ->
    usable_battery_level lp = Some bp ->
    charge_energy_added sv = Some en ->
    (bs == 0)%Q ->
    charging first this sv lp (Some lt) = Raise ZeroDivisionError.
Proof.
  intros. eapply charging_zero_level_divides_by_zero; eassumption.
Qed.

Lemma charging_zero_level_raises_witness :
  charging (sample 0 "Charging" 1000 50 150 0) (sample 3600 "Standby" 1000 0 250 12)
           (sample 3600 "Standby" 1000 0 250 12) (sample 0 "Driving" 1000 50 150 0)
           (Some (sample 1800 "Charging" 1000 65 200 6)) = Raise ZeroDivisionError.
Proof.
  apply (charging_zero_level_raises
           (sample 0 "Charging" 1000 50 150 0) (sample 3600 "Standby" 1000 0 250 12)
           (sample 3600 "Standby" 1000 0 250 12) (sample 0 "Driving" 1000 50 150 0)
           (sample 1800 "Charging" 1000 65 200 6)
           250%Q 200%Q 150%Q 0%Q 65%Q 50%Q 12%Q);
    reflexivity.
Defined.

(** X8: when a Driving episode closes with an odometer reading on the
    incoming record, the ranges, the levels and the odometer readings
    present and a distance above -1, the line reports the odometer of [save]
    minus that of [lastprevmode], the level of [lastprevmode] minus the
    smaller of the levels of [save] and [lastthis], the range of
    [lastprevmode] minus the smaller range, and the distance times 100 over
    the range used when that is positive and 0 otherwise; a duration of zero
    is no obstacle. *)
Theorem driving_summary :
  forall first this sv lp lt rs rl rp bs bl bp os op,
    truthy (odometer this) = true ->
    battery_range sv = Some rs ->
    battery_range lt = Some rl ->
    battery_range lp = Some rp ->
    usable_battery_level sv = Some bs ->
    usable_battery_level lt = Some bl ->
    usable_battery_level lp = Some bp ->
    odometer sv = Some os ->
    odometer lp = Some op ->
    (-1 < os - op)%Q ->
    driving first this sv lp (Some lt) =
      Ok (Closed (Some (Drove (time first) (total_seconds first sv)
            (os - op) (bp - min_range bs bl) (rp - min_range rs rl)
            (if Qlt_bool 0 (rp - min_range rs rl)
             then (os - op) * 100 / (rp - min_range rs rl) else 0)))).
Proof.
  intros first this sv lp lt rs rl rp bs bl bp os op
         Ho Hrs Hrl Hrp Hbs Hbl Hbp Hos Hop Hd.
  unfold driving, min_range. rewrite Ho. cbn [negb deref bind]. cbv zeta.
  rewrite Hrs, Hrl, Hrp, Hbs, Hbl, Hbp, Hos, Hop. cbn [py_lt py_sub bind].
  apply Qlt_bool_iff in Hd. rewrite Hd.
  destruct (Qlt_bool rs rl), (Qlt_bool bs bl); cbn [py_sub bind];
    match goal with
    | |- context [Qlt_bool 0 ?d] =>
      destruct (Qlt_bool 0 d) eqn:E;
        [unfold py_div; rewrite (positive_nonzero _ E)|]
    end; reflexivity.
Qed.

Lemma driving_summary_witness :
  driving (sample 0 "Driving" 100 80 200 0) (sample 601 "Standby" 110 70 180 0)
          (sample 601 "Standby" 110 70 180 0) (sample 0 "Charging" 100 80 200 0)
          (Some (sample 600 "Driving" 110 70 180 0)) =
    Ok (Closed (Some (Drove 0 601 (110 - 100) (80 - min_range 70 70)
          (200 - min_range 180 180)
          (if Qlt_bool 0 (200 - min_range 180 180)
           then (110 - 100) * 100 / (200 - min_range 180 180) else 0)))).
Proof.
  apply (driving_summary
           (sample 0 "Driving" 100 80 200 0) (sample 601 "Standby" 110 70 180 0)
           (sample 601 "Standby" 110 70 180 0) (sample 0 "Charging" 100 80 200 0)
           (sample 600 "Driving" 110 70 180 0)
           180%Q 180%Q 200%Q 70%Q 70%Q 80%Q 110%Q 100%Q);
    reflexivity.
Defined.

(** X9: the Driving calculator never raises ZeroDivisionError, whatever the
    records: its one division is guarded by the range used being positive. *)
Theorem driving_never_divides_by_zero :
  forall first this sv lp lt,
    match driving first this sv lp lt with
    | Raise ZeroDivisionError => False
    | _ => True
    end.
Proof.
  intros first this sv lp lt. unfold driving.
  destruct (negb (truthy (odometer this))); [exact I|].
  destruct (deref lt) as [l|e] eqn:El; cbn [bind];
    [|destruct lt; [discriminate|injection El as <-; exact I]].
  cbv zeta.
  destruct (py_sub (odometer sv) (odometer lp)) as [dodo|e] eqn:E1; cbn [bind];
    [|rewrite (py_sub_raises _ _ _ E1); exact I].
  destruct (py_sub (battery_range lp) _) as [drange|e] eqn:E2; cbn [bind];
    [|rewrite (py_sub_raises _ _ _ E2); exact I].
  destruct (Qlt_bool (-1) dodo); [|exact I].
  destruct (py_sub (usable_battery_level lp) _) as [dlevel|e] eqn:E3; cbn [bind];
    [|rewrite (py_sub_raises _ _ _ E3); exact I].
  destruct (Qlt_bool 0 drange) eqn:E; cbn [bind]; [|exact I].
  unfold py_div. rewrite (positive_nonzero _ E). exact I.
Qed.

(** ** At most one summary for a boundary *)

Lemma fst_run_cons add ns st r rs :
  fst (run add ns st (r :: rs)) =
    match step add ns st r with
    | Ok (st', a) => a :: fst (run add ns st' rs)
    | Raise _ => []
    end.
Proof.
  rewrite run_cons. destruct (step add ns st r) as [[st' a]|e]; [|reflexivity].
  destruct (run add ns st' rs); reflexivity.
Qed.

Lemma closures_open_bounded add ns :
  (forall s t, mode (add s t) = mode t) ->
  forall rs st first m,
    firstthismode st = Some first ->
    (closures (fst (run add ns st rs))
     <= boundaries m (segmented_modes rs)
        + (if (mode first =? m)%string then 0 else 1))%nat.
Proof.
  intros Hadd. induction rs as [|r rs IH]; intros st first m Hf.
  - cbn. lia.
  - rewrite fst_run_cons, segmented_modes_cons.
    destruct (string_dec (mode r) "Polling") as [Hp|Hp].
    + rewrite (step_polling add ns st r Hp), Hp. cbn [String.eqb Ascii.eqb Bool.eqb].
      rewrite closures_cons. cbn [is_summarized Nat.add].
      refine (IH _ first m _). exact Hf.
    + apply String.eqb_neq in Hp as Hp'. rewrite Hp'. cbn [boundaries].
      assert (Hslack :
                mode first <> mode r ->
                (1 <= (if (m =? mode r)%string then 0 else 1)
                      + (if (mode first =? m)%string then 0 else 1))%nat).
      { intros Hne. destruct (String.eqb_spec m (mode r)) as [->|];
          [|lia]. apply String.eqb_neq in Hne. rewrite Hne. lia. }
      destruct ns.
      * assert (Hs : step add true st r =
                     Ok (seeded (merged add st r), Seeded)).
        { unfold step. rewrite Hp'. destruct (firstthismode st); reflexivity. }
        rewrite Hs, closures_cons. cbn [is_summarized Nat.add].
        pose proof (IH (seeded (merged add st r)) (merged add st r) (mode r)
                       eq_refl) as Hb.
        rewrite (merged_mode add st r Hadd), String.eqb_refl in Hb. lia.
      * destruct (string_dec (mode first) (mode r)) as [Hm|Hm].
        -- rewrite (step_same_mode add st r first Hp Hf Hm), closures_cons.
           cbn [is_summarized Nat.add].
           match goal with
           | |- context [run add false ?s rs] =>
             pose proof (IH s first (mode r) Hf) as Hb
           end.
           rewrite Hm, String.eqb_refl in Hb. lia.
        -- specialize (Hslack Hm).
           rewrite (step_transition add st r first Hp Hf Hm). unfold finish.
           destruct (summarize _ _ _ _ _) as [[|p]|e]; cbn [bind].
           ++ rewrite closures_cons. cbn [is_summarized Nat.add].
              pose proof (IH (deferred_state st (merged add st r)) first (mode r)
                             Hf) as Hb.
              apply String.eqb_neq in Hm. rewrite Hm in Hb. lia.
           ++ rewrite closures_cons. cbn [is_summarized].
              pose proof (IH (advanced_state st (merged add st r))
                             (merged add st r) (mode r) eq_refl) as Hb.
              rewrite (merged_mode add st r Hadd), String.eqb_refl in Hb. lia.
           ++ cbn. lia.
Qed.

Lemma closures_unset_bounded add ns :
  (forall s t, mode (add s t) = mode t) ->
  forall rs st,
    firstthismode st = None ->
    (closures (fst (run add ns st rs)) <= transitions rs)%nat.
Proof.
  intros Hadd. induction rs as [|r rs IH]; intros st Hf.
  - cbn. lia.
  - rewrite fst_run_cons. unfold transitions. rewrite segmented_modes_cons.
    destruct (string_dec (mode r) "Polling") as [Hp|Hp].
    + rewrite (step_polling add ns st r Hp), Hp. cbn [String.eqb Ascii.eqb Bool.eqb].
      rewrite closures_cons. cbn [is_summarized Nat.add].
      refine (IH _ _). exact Hf.
    + apply String.eqb_neq in Hp as Hp'. rewrite Hp'.
      assert (Hs : step add ns st r = Ok (seeded (merged add st r), Seeded)).
      { unfold step. rewrite Hp', Hf. reflexivity. }
      rewrite Hs, closures_cons. cbn [is_summarized Nat.add].
      pose proof (closures_open_bounded add ns Hadd rs (seeded (merged add st r))
                    (merged add st r) (mode r) eq_refl) as Hb.
      rewrite (merged_mode add st r Hadd), String.eqb_refl in Hb. lia.
Qed.

(** X10: provided the merge gives the merged record the mode of the record
    merged in, no run summarizes more often than the records have mode
    boundaries (adjacent records of differing modes, the Polling records left
    out), whether it ends normally or with an exception and whether or not
    summaries are deferred. *)
Theorem closures_at_most_transitions :
  forall add nosummary,
    (forall s t, mode (add s t) = mode t) ->
    forall rs,
      (closures (fst (run add nosummary initial rs)) <= transitions rs)%nat.
Proof.
  intros add ns Hadd rs. now apply closures_unset_bounded.
Qed.

Lemma closures_at_most_transitions_witness :
  (closures (fst (run add_latest false initial
                    [sample 0 "Driving" 1000 80 200 0;
                     sample_no_odometer 100 "Standby" 70 180;
                     sample 200 "Driving" 1010 60 150 0;
                     sample 300 "Standby" 1010 60 150 0]))
   <= transitions [sample 0 "Driving" 1000 80 200 0;
                   sample_no_odometer 100 "Standby" 70 180;
                   sample 200 "Driving" 1010 60 150 0;
                   sample 300 "Standby" 1010 60 150 0])%nat.
Proof.
  apply (closures_at_most_transitions add_latest false (fun s t => eq_refl)).
Defined.

End DriverFacts.

(** * Facts about the output files *)

Module ArchiveFacts.

Import Archive.

Open Scope string_scope.
Open Scope list_scope.

Lemma same_hour_same_day (a b : Z) :
  a <= b -> b < (a / 3600 + 1) * 3600 -> b / 86400 = a / 86400.
Proof.
  intros Hab Hb.
  assert (Hq : b / 3600 = a / 3600).
  { apply Z.le_antisymm.
    - apply Z.lt_succ_r. apply Z.div_lt_upper_bound; lia.
    - apply Z.div_le_mono; lia. }
  replace 86400 with (3600 * 24) by reflexivity.
  rewrite <- !Z.div_div by lia. now rewrite Hq.
Qed.

(** X12: when the output directory is set and the time has reached
    [nexthour], the maintenance opens the file named after that time and
    moves [nexthour] to the next full hour: a multiple of 3600 above the
    time and at most 3600 beyond it; a second call for the same time does
    nothing. *)
Theorem maintenance_moves_to_next_hour :
  forall strftime d st cur,
    d <> "" ->
    nexthour st <= cur ->
    let st' := fst (output_maintenance strftime (Some d) st cur) in
    X st' = Some (d ++ "/" ++ strftime cur)%string
    /\ cur < nexthour st' <= cur + 3600
    /\ nexthour st' mod 3600 = 0
    /\ output_maintenance strftime (Some d) st' cur = (st', []).
Proof.
  intros strftime d st cur Hd Hcur st'.
  assert (Hst' : st' = {| nexthour := (cur / 3600 + 1) * 3600;
                          X := Some (d ++ "/" ++ strftime cur)%string |}).
  { unfold st', output_maintenance. apply String.eqb_neq in Hd. rewrite Hd.
    assert (Hlt : (cur <? nexthour st)%Z = false) by (apply Z.ltb_ge; lia).
    rewrite Hlt. reflexivity. }
  rewrite Hst'. cbn [X nexthour].
  pose proof (Z.div_mod cur 3600 ltac:(lia)) as Hdm.
  pose proof (Z.mod_pos_bound cur 3600 ltac:(lia)) as Hmb.
  split; [reflexivity|]. split; [lia|]. split.
  - apply Z.mod_mul. lia.
  - unfold output_maintenance. apply String.eqb_neq in Hd. rewrite Hd.
    cbn [nexthour].
    assert (Hlt : (cur <? (cur / 3600 + 1) * 3600)%Z = true)
      by (apply Z.ltb_lt; lia).
    rewrite Hlt. reflexivity.
Qed.

Lemma maintenance_moves_to_next_hour_witness :
  let st' := fst (output_maintenance day_name (Some "out")
                    initial 7300) in
  X st' = Some ("out" ++ "/" ++ day_name 7300)%string
  /\ 7300 < nexthour st' <= 7300 + 3600
  /\ nexthour st' mod 3600 = 0
  /\ output_maintenance day_name (Some "out") st' 7300 = (st', []).
Proof.
  apply (maintenance_moves_to_next_hour day_name "out" initial 7300);
    [discriminate|cbn; lia].
Defined.

Lemma written_app evs1 evs2 : written (evs1 ++ evs2) = written evs1 ++ written evs2.
Proof. unfold written. apply flat_map_app. Qed.

Lemma written_maintenance strftime outdir st cur :
  written (snd (output_maintenance strftime outdir st cur)) = [].
Proof.
  unfold output_maintenance.
  destruct outdir as [d|]; [|reflexivity].
  destruct (d =? ""); [reflexivity|].
  destruct (cur <? nexthour st)%Z; [reflexivity|].
  cbn [snd]. rewrite written_app. destruct (X st); reflexivity.
Qed.

Section OwnDay.

Variable strftime : Z -> string.
Variable d : string.
Hypothesis Hd : d <> "".
Hypothesis Hday : forall a b, a / 86400 = b / 86400 -> strftime a = strftime b.

(** A file is open for a time not after [prev] in the hour before
    [nexthour], or none is and [nexthour] is not after [prev]. *)
Let in_step (st : state) (prev : Z) : Prop :=
  (X st = None /\ nexthour st <= prev)
  \/ exists t0,
       X st = Some (d ++ "/" ++ strftime t0)%string
       /\ nexthour st = (t0 / 3600 + 1) * 3600
       /\ t0 <= prev.

Lemma archive_in_step st prev cur line :
  in_step st prev ->
  prev <= cur ->
  exists st' evs,
    archive strftime (Some d) st cur line = Ok (st', evs)
    /\ written evs = [((d ++ "/" ++ strftime cur)%string, line)]
    /\ in_step st' cur.
Proof.
  intros Hin Hle. unfold archive, wanted.
  apply String.eqb_neq in Hd as Hd'. rewrite Hd'. cbn [negb].
  pose proof (written_maintenance strftime (Some d) st cur) as Hw.
  unfold output_maintenance in *. rewrite Hd' in *.
  destruct (cur <? nexthour st)%Z eqn:Hlt.
  - apply Z.ltb_lt in Hlt.
    destruct Hin as [(_ & Hn)|(t0 & HX & Hn & Ht0)]; [lia|].
    rewrite HX. eexists _, _. split; [reflexivity|].
    assert (Hsame : strftime t0 = strftime cur).
    { apply Hday. symmetry. apply same_hour_same_day; lia. }
    split; [cbn; now rewrite Hsame|].
    right. exists t0. repeat split; auto. lia.
  - cbn [X]. eexists _, _. split; [reflexivity|].
    split; [rewrite written_app; cbn [snd] in Hw; rewrite Hw; reflexivity|].
    right. exists cur. cbn [X nexthour]. repeat split; lia.
Qed.

Lemma archive_all_in_step ls : forall st prev,
  in_step st prev ->
  nondecreasing prev (map fst ls) ->
  exists evs st',
    archive_all strftime (Some d) st ls = (evs, Ok st')
    /\ written evs = map (fun l => ((d ++ "/" ++ strftime (fst l))%string, snd l)) ls.
Proof.
  induction ls as [|[cur line] ls IH]; intros st prev Hin Hnd.
  - exists [], st. split; reflexivity.
  - cbn [map fst nondecreasing] in Hnd. destruct Hnd as (Hle & Hnd).
    destruct (archive_in_step st prev cur line Hin Hle)
      as (st1 & evs1 & Ha & Hw & Hin1).
    destruct (IH st1 cur Hin1 Hnd) as (evs & st' & Hrun & Hws).
    cbn [archive_all]. rewrite Ha, Hrun.
    exists (evs1 ++ evs), st'. split; [reflexivity|].
    rewrite written_app, Hw, Hws. reflexivity.
Qed.

Lemma archive_all_own_day ls :
  nondecreasing 0 (map fst ls) ->
  exists evs st',
    archive_all strftime (Some d) initial ls = (evs, Ok st')
    /\ written evs = map (fun l => ((d ++ "/" ++ strftime (fst l))%string, snd l)) ls.
Proof.
  apply archive_all_in_step. left. split; [reflexivity|cbn; lia].
Qed.

End OwnDay.

(** X13: when the output directory is set, the file name depends on the day
    of the time alone, and the times of the records are not negative and
    never go back, archiving raises nothing and every line is written, in
    order, to the file of the directory named after the day of its own
    record. *)
Theorem lines_go_to_the_file_of_their_day :
  forall strftime d ls,
    d <> "" ->
    (forall a b, a / 86400 = b / 86400 -> strftime a = strftime b) ->
    nondecreasing 0 (map fst ls) ->
    exists evs st,
      archive_all strftime (Some d) initial ls = (evs, Ok st)
      /\ written evs =
           map (fun l => ((d ++ "/" ++ strftime (fst l))%string, snd l)) ls.
Proof.
  intros strftime d ls Hd Hday Hnd. now apply archive_all_own_day.
Qed.

Lemma lines_go_to_the_file_of_their_day_witness :
  exists evs st,
    archive_all day_name (Some "out") initial
                [(100, "a"); (3700, "b"); (86400, "c"); (86400, "d")] = (evs, Ok st)
    /\ written evs =
         map (fun l => (("out" ++ "/" ++ day_name (fst l))%string, snd l))
             [(100, "a"); (3700, "b"); (86400, "c"); (86400, "d")].
Proof.
  apply (lines_go_to_the_file_of_their_day day_name "out"
           [(100, "a"); (3700, "b"); (86400, "c"); (86400, "d")]).
  - discriminate.
  - intros a b H. unfold day_name. now rewrite H.
  - cbn. lia.
Defined.

(** X14: a record that is not newer than the one before it is written to the
    file opened for that earlier record, whatever its own day: no file is
    closed or opened for it. *)
Theorem older_record_goes_to_the_open_file :
  forall strftime d t1 t2 l1 l2,
    d <> "" ->
    0 <= t1 ->
    t2 <= t1 ->
    let p := (d ++ "/" ++ strftime t1)%string in
    archive_all strftime (Some d) initial [(t1, l1); (t2, l2)] =
      ([Opening p; Linking (strftime t1) (d ++ "/cur.json")%string;
        Writing p l1; Writing p l2],
       Ok {| nexthour := (t1 / 3600 + 1) * 3600; X := Some p |}).
Proof.
  intros strftime d t1 t2 l1 l2 Hd H1 H2 p.
  pose proof (Z.div_mod t1 3600 ltac:(lia)) as Hdm.
  pose proof (Z.mod_pos_bound t1 3600 ltac:(lia)) as Hmb.
  cbn [archive_all]. unfold archive, wanted, output_maintenance.
  apply String.eqb_neq in Hd. rewrite Hd. cbn [negb nexthour initial X].
  assert (Hge : (t1 <? 0)%Z = false) by (apply Z.ltb_ge; lia).
  rewrite Hge. cbn [X nexthour app].
  assert (Hlt : (t2 <? (t1 / 3600 + 1) * 3600)%Z = true) by (apply Z.ltb_lt; lia).
  rewrite Hlt. reflexivity.
Qed.

Lemma older_record_goes_to_the_open_file_witness :
  let p := ("out" ++ "/" ++ day_name 90000)%string in
  archive_all day_name (Some "out") initial [(90000, "new"); (100, "old")] =
    ([Opening p; Linking (day_name 90000) ("out" ++ "/cur.json")%string;
      Writing p "new"; Writing p "old"],
     Ok {| nexthour := (90000 / 3600 + 1) * 3600; X := Some p |}).
Proof.
  apply (older_record_goes_to_the_open_file day_name "out" 90000 100 "new" "old");
    [discriminate|lia|lia].
Defined.

End ArchiveFacts.

(** * Facts about the API methods *)

Module ApiFacts.

Import Teslajson TeslajsonFacts Api.

Open Scope list_scope.
Open Scope string_scope.

(** ** The vehicles of a connection *)

Lemma insert_id_permutation x l : Permutation (x :: l) (insert_id x l).
Proof.
  induction l as [|y l IH]; cbn; [reflexivity|].
  destruct (x <? y)%Z; [reflexivity|].
  rewrite perm_swap. now constructor.
Qed.

Lemma insert_id_head x y l :
  (y <= x)%Z -> HdRel Z.le y l -> HdRel Z.le y (insert_id x l).
Proof.
  intros Hyx Hl. destruct l as [|z l]; cbn; [now constructor|].
  destruct (x <? z)%Z; constructor; [exact Hyx|].
  now inversion Hl.
Qed.

Lemma insert_id_sorted x l : Sorted Z.le l -> Sorted Z.le (insert_id x l).
Proof.
  induction 1 as [|y l Hs IH Hhd]; cbn; [repeat constructor|].
  destruct (x <? y)%Z eqn:E.
  - apply Z.ltb_lt in E. repeat constructor; auto; lia.
  - apply Z.ltb_ge in E. constructor; [exact IH|].
    now apply insert_id_head.
Qed.

Lemma sorted_ids_sorted l : Sorted Z.le (sorted_ids l).
Proof.
  induction l as [|x l IH]; cbn; [constructor|]. now apply insert_id_sorted.
Qed.

Lemma sorted_ids_permutation l : Permutation l (sorted_ids l).
Proof.
  induction l as [|x l IH]; cbn; [reflexivity|].
  rewrite <- insert_id_permutation. now constructor.
Qed.

Lemma get_vehicles_reply net now b a hd oa ex :
  match get_vehicles net now b a hd oa ex with
  | (trace, Ok (_, _, ids)) =>
    exists r, last trace pastebin = r /\ fetch_vehicles net r = Ok ids
  | (_, Raise _) => True
  end.
Proof.
  unfold get_vehicles.
  destruct (expired now ex).
  - destruct oa as [o|]; cbn; [|exact I].
    destruct (fetch_token net _) as [t|e]; cbn; [|exact I].
    destruct (fetch_vehicles net _) as [ids|e] eqn:Ev; cbn; [|exact I].
    eexists. split; [reflexivity|exact Ev].
  - cbn. destruct (fetch_vehicles net _) as [ids|e] eqn:Ev; cbn; [|exact I].
    eexists. split; [reflexivity|exact Ev].
Qed.

(** X15: the vehicles of a connection that the constructor returns are the
    identifiers of the reply to its last request, each as often as in the
    reply, in ascending order. *)
Theorem vehicles_are_sorted :
  forall net now email password access_token,
    match Connection_init net now email password access_token with
    | (trace, Ok conn) =>
      Sorted Z.le (vehicles conn)
      /\ exists ids,
           fetch_vehicles net (last trace pastebin) = Ok ids
           /\ Permutation ids (vehicles conn)
    | (_, Raise _) => True
    end.
Proof.
  intros net now email password access_token. unfold Connection_init.
  destruct (fetch_client net pastebin) as [c|e]; cbn [io_bind]; [|exact I].
  destruct (unexpected_url (client_baseurl c)); [exact I|].
  match goal with
  | |- context [get_vehicles ?n ?w ?b ?a ?h ?o ?x] =>
    pose proof (get_vehicles_reply n w b a h o x) as Hr;
    destruct (get_vehicles n w b a h o x) as [tr [[[hd ex] ids]|e]]
  end; cbn [io_ret]; [|exact I].
  destruct Hr as (r & Hl & Hv). cbn [vehicles].
  split; [apply sorted_ids_sorted|].
  exists ids. split; [|apply sorted_ids_permutation].
  rewrite app_nil_r.
  destruct tr as [|q tr]; [cbn in *; now rewrite Hl|].
  cbn [app fst io_bind].
  change (last (pastebin :: q :: tr) pastebin) with (last (q :: tr) pastebin).
  now rewrite Hl.
Qed.

(** ** Where the credentials go *)

Lemma get_vehicles_bodies net now b a hd oa ex :
  Forall (fun r => data r <> None -> url r = b ++ "/oauth/token")
         (fst (get_vehicles net now b a hd oa ex)).
Proof.
  unfold get_vehicles.
  destruct (expired now ex).
  - destruct oa as [o|]; cbn; [|constructor].
    destruct (fetch_token net _) as [t|e]; cbn.
    + destruct (fetch_vehicles net _) as [ids|e]; cbn;
        repeat constructor; cbn; congruence.
    + repeat constructor.
  - cbn. destruct (fetch_vehicles net _) as [ids|e]; cbn;
      repeat constructor; cbn; congruence.
Qed.

(** X16: whatever the network answers, the only request of the constructor
    that carries data, and so the only one that can carry the e-mail
    address, the password and the client secret, is the token request, and
    its URL is [/oauth/token] on a fetched base URL that passed the test of
    line 64. *)
Theorem credentials_go_to_the_token_endpoint :
  forall net now email password access_token,
    Forall (fun r =>
              match data r with
              | None => True
              | Some _ =>
                exists c,
                  fetch_client net pastebin = Ok c
                  /\ passes_url_test (client_baseurl c)
                  /\ url r = client_baseurl c ++ "/oauth/token"
              end)
           (fst (Connection_init net now email password access_token)).
Proof.
  intros net now email password access_token. unfold Connection_init.
  destruct (fetch_client net pastebin) as [c|e] eqn:Hc; cbn [io_bind fst];
    [|repeat constructor].
  destruct (unexpected_url (client_baseurl c)) eqn:E; [repeat constructor|].
  apply unexpected_url_spec in E.
  match goal with
  | |- context [get_vehicles ?n ?w ?b ?a ?h ?o ?x] =>
    pose proof (get_vehicles_bodies n w b a h o x) as Hb;
    destruct (get_vehicles n w b a h o x) as [tr [[[hd ex] ids]|e]]
  end; cbn [fst io_bind io_ret] in *; rewrite ?app_nil_r;
    (constructor; [exact I|]);
    (eapply Forall_impl; [|exact Hb]);
    intros r Hr; cbv beta in Hr; (destruct (data r) eqn:Ed; [|exact I]);
    exists c; (split; [reflexivity|split; [exact E|apply Hr; congruence]]).
Qed.

(** ** Calls on a connection *)

Lemma user_agent_has_key hd : has_key "User-Agent" (user_agent hd) = true.
Proof.
  unfold user_agent. destruct (has_key "User-Agent" hd) eqn:E; [exact E|].
  induction hd as [|[k v] hd IH]; cbn in *; [reflexivity|].
  apply orb_false_iff in E. destruct E as (-> & E). cbn. now apply IH.
Qed.

Lemma user_agent_idempotent hd : user_agent (user_agent hd) = user_agent hd.
Proof.
  unfold user_agent at 1. now rewrite user_agent_has_key.
Qed.

Ltac on_host :=
  repeat (apply Forall_cons; [eexists; reflexivity|]); apply Forall_nil.

Section Calls.

Variable reply : Type.
Variable fetch_token : request -> result token.
Variable fetch : request -> result reply.

Lemma post_frame now self command dat :
  Forall (fun r => exists path, url r = baseurl self ++ path)
         (fst (post reply fetch_token fetch now self command dat))
  /\ match snd (post reply fetch_token fetch now self command dat) with
     | Ok (self', _) =>
       baseurl self' = baseurl self /\ api self' = api self
       /\ oauth self' = oauth self /\ vehicles self' = vehicles self
     | Raise _ => True
     end.
Proof.
  unfold post.
  destruct (expired now (expiration self)).
  - destruct (oauth self) as [o|] eqn:Ho; cbn; [|split; [constructor|exact I]].
    destruct (fetch_token _) as [t|e]; cbn.
    + destruct (fetch _) as [r|e]; cbn;
        (split; [on_host|first [exact I|repeat split; congruence]]).
    + split; [on_host|exact I].
  - cbn. destruct (fetch _) as [r|e]; cbn; (split; [on_host|first [exact I|repeat split]]).
Qed.

Lemma posts_frame calls : forall self,
  Forall (fun r => exists path, url r = baseurl self ++ path)
         (fst (posts reply fetch_token fetch self calls))
  /\ match snd (posts reply fetch_token fetch self calls) with
     | Ok self' => baseurl self' = baseurl self /\ api self' = api self
     | Raise _ => True
     end.
Proof.
  induction calls as [|c calls IH]; intros self.
  - cbn. split; [constructor|auto].
  - cbn [posts].
    destruct (post_frame (call_now c) self (call_command c) (call_data c))
      as (Hreq & Hst).
    destruct (post reply fetch_token fetch (call_now c) self (call_command c)
                   (call_data c)) as [tr [[self1 r]|e]]; cbn [fst snd io_bind] in *.
    + destruct Hst as (Hb & Ha & _).
      destruct (IH self1) as (Hreq' & Hst').
      destruct (posts reply fetch_token fetch self1 calls) as [tr' res];
        cbn [fst snd] in *.
      split.
      * apply Forall_app. split; [exact Hreq|].
        rewrite <- Hb. exact Hreq'.
      * destruct res as [self'|e]; [|exact I].
        destruct Hst' as (Hb' & Ha'). split; congruence.
    + split; [exact Hreq|exact I].
Qed.

Lemma post_with_token now self command dat :
  expiration self = None ->
  let req := open_request (baseurl self) (api self ++ command)
                          (user_agent (head self)) dat "" in
  post reply fetch_token fetch now self command dat =
    match fetch req with
    | Ok r => ([req], Ok (with_head self (user_agent (head self)), r))
    | Raise e => ([req], Raise e)
    end.
Proof.
  intros Hex req. unfold post. rewrite Hex. cbn. fold req.
  destruct (fetch req); reflexivity.
Qed.

Lemma posts_with_token calls : forall self,
  expiration self = None ->
  fst (posts reply fetch_token fetch self calls) =
    upto_failure fetch
      (map (fun c => open_request (baseurl self) (api self ++ call_command c)
                                  (user_agent (head self)) (call_data c) "") calls)
  /\ match snd (posts reply fetch_token fetch self calls) with
     | Ok self' => expiration self' = None
     | Raise _ => True
     end.
Proof.
  induction calls as [|c calls IH]; intros self Hex.
  - cbn. auto.
  - cbn [posts map upto_failure].
    rewrite (post_with_token (call_now c) self (call_command c) (call_data c) Hex).
    cbv zeta.
    destruct (fetch _) as [r|e]; cbn [io_bind fst snd]; [|auto].
    destruct (IH (with_head self (user_agent (head self))) Hex) as (Htr & Hst).
    cbn [baseurl api head with_head] in Htr.
    rewrite user_agent_idempotent in Htr.
    destruct (posts reply fetch_token fetch _ calls) as [tr' res];
      cbn [fst snd] in *.
    split; [cbn [app]; now rewrite Htr|exact Hst].
Qed.

End Calls.

Lemma constructed_baseurl net now email password access_token conn :
  snd (Connection_init net now email password access_token) = Ok conn ->
  passes_url_test (baseurl conn).
Proof.
  unfold Connection_init.
  destruct (fetch_client net pastebin) as [c|e]; cbn [io_bind snd];
    [|discriminate].
  destruct (unexpected_url (client_baseurl c)) eqn:E; [discriminate|].
  apply unexpected_url_spec in E.
  destruct (get_vehicles _ _ _ _ _ _ _) as [tr [[[hd ex] ids]|e]];
    cbn [io_bind io_ret snd]; [|discriminate].
  intros H. injection H as <-. exact E.
Qed.

(** X17: every request that a series of calls of [post] issues on a
    connection returned by the constructor, token requests included, has
    a URL that begins with the base URL of that connection, which passed the
    test of line 64; the calls leave the base URL and the API prefix as they
    were. *)
Theorem posts_keep_the_checked_base_url :
  forall net now email password access_token conn,
    snd (Connection_init net now email password access_token) = Ok conn ->
    forall reply fetch_token fetch calls,
      passes_url_test (baseurl conn)
      /\ Forall (fun r => exists path, url r = baseurl conn ++ path)
                (fst (posts reply fetch_token fetch conn calls))
      /\ match snd (posts reply fetch_token fetch conn calls) with
         | Ok conn' => baseurl conn' = baseurl conn /\ api conn' = api conn
         | Raise _ => True
         end.
Proof.
  intros net now email password access_token conn Hinit reply ft f calls.
  split; [exact (constructed_baseurl _ _ _ _ _ _ Hinit)|].
  apply posts_frame.
Qed.

Lemma posts_keep_the_checked_base_url_witness :
  passes_url_test "https://owner-api.teslamotors.com"
  /\ Forall (fun r => exists path,
                 url r = "https://owner-api.teslamotors.com" ++ path)
            (fst (posts nat (fun _ => Raise IOError) (fun _ => Ok 0%nat)
                    {| baseurl := "https://owner-api.teslamotors.com";
                       api := "/api/1/";
                       head := user_agent (sethead "tok");
                       oauth := None;
                       expiration := None;
                       vehicles := [7%Z] |}
                    [mkCall 10 "vehicles/7/wake_up" (Some [])]))
  /\ match snd (posts nat (fun _ => Raise IOError) (fun _ => Ok 0%nat)
                  {| baseurl := "https://owner-api.teslamotors.com";
                     api := "/api/1/";
                     head := user_agent (sethead "tok");
                     oauth := None;
                     expiration := None;
                     vehicles := [7%Z] |}
                  [mkCall 10 "vehicles/7/wake_up" (Some [])]) with
     | Ok conn' =>
       baseurl conn' = "https://owner-api.teslamotors.com"
       /\ api conn' = "/api/1/"
     | Raise _ => True
     end.
Proof.
  apply (posts_keep_the_checked_base_url
           (sample_network "https://owner-api.teslamotors.com")
           5000 "me" "pw" "tok"
           {| baseurl := "https://owner-api.teslamotors.com";
              api := "/api/1/";
              head := user_agent (sethead "tok");
              oauth := None;
              expiration := None;
              vehicles := [7%Z] |}
           eq_refl nat (fun _ => Raise IOError) (fun _ => Ok 0%nat)
           [mkCall 10 "vehicles/7/wake_up" (Some [])]).
Defined.

(** X18: a connection whose token never expires, as the constructor leaves
    it when it is given an access token, never asks for a token: the
    requests of a series of calls are exactly, in order, the request of each
    call with the headers of the connection and the User-Agent header, up to
    and including the first that fails; and after the calls the token still
    never expires. *)
Theorem unexpiring_token_is_never_renewed :
  forall reply fetch_token fetch self calls,
    expiration self = None ->
    fst (posts reply fetch_token fetch self calls) =
      upto_failure fetch
        (map (fun c => open_request (baseurl self) (api self ++ call_command c)
                                    (user_agent (head self)) (call_data c) "")
             calls)
    /\ match snd (posts reply fetch_token fetch self calls) with
       | Ok self' => expiration self' = None
       | Raise _ => True
       end.
Proof.
  intros. now apply posts_with_token.
Qed.

Lemma unexpiring_token_is_never_renewed_witness :
  fst (posts nat (fun _ => Raise IOError) (fun _ => Ok 0%nat)
             {| baseurl := "https://owner-api.teslamotors.com";
                api := "/api/1/";
                head := sethead "tok";
                oauth := None;
                expiration := None;
                vehicles := [7%Z] |}
             [mkCall 10 "vehicles" None;
              mkCall 99999999 "vehicles/7/wake_up" (Some [])]) =
    upto_failure (fun _ => Ok 0%nat)
      (map (fun c => open_request "https://owner-api.teslamotors.com"
                                  ("/api/1/" ++ call_command c)
                                  (user_agent (sethead "tok")) (call_data c) "")
           [mkCall 10 "vehicles" None;
            mkCall 99999999 "vehicles/7/wake_up" (Some [])])
  /\ match snd (posts nat (fun _ => Raise IOError) (fun _ => Ok 0%nat)
                  {| baseurl := "https://owner-api.teslamotors.com";
                     api := "/api/1/";
                     head := sethead "tok";
                     oauth := None;
                     expiration := None;
                     vehicles := [7%Z] |}
                  [mkCall 10 "vehicles" None;
                   mkCall 99999999 "vehicles/7/wake_up" (Some [])]) with
     | Ok self' => expiration self' = None
     | Raise _ => True
     end.
Proof.
  apply (unexpiring_token_is_never_renewed nat (fun _ => Raise IOError)
           (fun _ => Ok 0%nat)
           {| baseurl := "https://owner-api.teslamotors.com";
              api := "/api/1/";
              head := sethead "tok";
              oauth := None;
              expiration := None;
              vehicles := [7%Z] |}).
  reflexivity.
Defined.

(** ** Tokens *)

(** X19: when the token has expired, [post] first asks for a token with the
    stored grant and without headers, then sends the call with the
    Authorization header of the new token and the User-Agent header; the
    token counts as expired one day before the server's own limit, and a
    later call made up to that moment sends a single request with the same
    two headers. *)
Theorem token_is_reused_until_it_expires :
  forall reply fetch_token fetch self o t now1 now2 c1 d1 c2 d2 r1,
    expired now1 (expiration self) = true ->
    oauth self = Some o ->
    let asking := open_request (baseurl self) "/oauth/token" [] (Some o) "" in
    let hd := [("Authorization", "Bearer " ++ token_access_token t);
               ("User-Agent", "teslajson.py 1.3.1")] in
    fetch_token asking = Ok t ->
    fetch (open_request (baseurl self) (api self ++ c1) hd d1 "") = Ok r1 ->
    (now2 <= token_created_at t + token_expires_in t - 86400)%Z ->
    exists self1,
      post reply fetch_token fetch now1 self c1 d1 =
        ([asking; open_request (baseurl self) (api self ++ c1) hd d1 ""],
         Ok (self1, r1))
      /\ expiration self1 =
           Some (token_created_at t + token_expires_in t - 86400)%Z
      /\ fst (post reply fetch_token fetch now2 self1 c2 d2) =
           [open_request (baseurl self) (api self ++ c2) hd d2 ""].
Proof.
  intros reply ft f self o t now1 now2 c1 d1 c2 d2 r1 Hex Ho asking hd Ht Hf Hle.
  exists (with_head (with_token self t) hd).
  assert (Hp : post reply ft f now1 self c1 d1 =
               ([asking; open_request (baseurl self) (api self ++ c1) hd d1 ""],
                Ok (with_head (with_token self t) hd, r1))).
  { unfold post. rewrite Hex, Ho. cbv zeta. fold asking. rewrite Ht.
    cbn [io_bind io_ret app fst snd baseurl api head with_token].
    change (user_agent (sethead (token_access_token t))) with hd.
    rewrite Hf. reflexivity. }
  split; [exact Hp|]. split; [reflexivity|].
  unfold post. cbn [expiration with_head with_token expired].
  assert (Hgt : (now2 >? token_created_at t + token_expires_in t - 86400)%Z = false)
    by (rewrite Z.gtb_ltb; apply Z.ltb_ge; lia).
  rewrite Hgt. cbn.
  match goal with
  | |- context [match f ?r with _ => _ end] => destruct (f r)
  end; reflexivity.
Qed.

Lemma token_is_reused_until_it_expires_witness :
  exists self1,
    post nat (fun _ => Ok (mkToken "abc" 1000 100000)) (fun _ => Ok 0%nat) 5000
         {| baseurl := "https://owner-api.teslamotors.com";
            api := "/api/1/";
            head := user_agent [];
            oauth := Some [("grant_type", "password")];
            expiration := Some 0%Z;
            vehicles := [] |} "vehicles" None =
      ([open_request "https://owner-api.teslamotors.com" "/oauth/token" []
                     (Some [("grant_type", "password")]) "";
        open_request "https://owner-api.teslamotors.com" ("/api/1/" ++ "vehicles")
                     [("Authorization", "Bearer " ++ "abc");
                      ("User-Agent", "teslajson.py 1.3.1")] None ""],
       Ok (self1, 0%nat))
    /\ expiration self1 = Some (1000 + 100000 - 86400)%Z
    /\ fst (post nat (fun _ => Ok (mkToken "abc" 1000 100000)) (fun _ => Ok 0%nat)
                 6000 self1 "vehicles/7/data" None) =
         [open_request "https://owner-api.teslamotors.com"
                       ("/api/1/" ++ "vehicles/7/data")
                       [("Authorization", "Bearer " ++ "abc");
                        ("User-Agent", "teslajson.py 1.3.1")] None ""].
Proof.
  apply (token_is_reused_until_it_expires nat
           (fun _ => Ok (mkToken "abc" 1000 100000)) (fun _ => Ok 0%nat)
           {| baseurl := "https://owner-api.teslamotors.com";
              api := "/api/1/";
              head := user_agent [];
              oauth := Some [("grant_type", "password")];
              expiration := Some 0%Z;
              vehicles := [] |}
           [("grant_type", "password")] (mkToken "abc" 1000 100000)
           5000 6000 "vehicles" None "vehicles/7/data" None 0%nat);
    try reflexivity.
  cbn. lia.
Defined.

(** X20: [refresh_token] stores the refresh grant, sends it in a token
    request and returns the reply, but installs no token: the expiry is as
    before and the Authorization header is gone.  A call made before the
    expiry goes out with the User-Agent header alone; a call made after it
    starts with a token request that carries the refresh grant. *)
Theorem refresh_token_drops_the_authorization :
  forall reply fetch_token fetch current self refresh t now c d,
    let grant := [("grant_type", "refresh_token");
                  ("client_id", client_id current);
                  ("client_secret", client_secret current);
                  ("refresh_token", refresh)] in
    let asking :=
      open_request (baseurl self) "/oauth/token" [] (Some grant) "" in
    fetch_token asking = Ok t ->
    exists self1,
      refresh_token fetch_token current self refresh = ([asking], Ok (self1, t))
      /\ expiration self1 = expiration self
      /\ (expired now (expiration self) = false ->
          fst (post reply fetch_token fetch now self1 c d) =
            [open_request (baseurl self) (api self ++ c)
                          [("User-Agent", "teslajson.py 1.3.1")] d ""])
      /\ (expired now (expiration self) = true ->
          exists rest,
            fst (post reply fetch_token fetch now self1 c d) = asking :: rest).
Proof.
  intros reply ft f current self refresh t now c d grant asking Ht.
  subst asking grant.
  eexists. split.
  - unfold refresh_token. cbv zeta. rewrite Ht. reflexivity.
  - split; [reflexivity|]. split; intros Hex; unfold post;
      cbn [expiration oauth baseurl api head]; rewrite Hex; cbv zeta.
    + cbn.
      match goal with
      | |- context [match f ?r with _ => _ end] => destruct (f r)
      end; reflexivity.
    + match goal with
      | |- context [ft ?r] =>
        replace (ft r) with (@Ok token t) by (symmetry; exact Ht)
      end.
      cbn.
      match goal with
      | |- context [match f ?r with _ => _ end] => destruct (f r)
      end; eexists; reflexivity.
Qed.

Lemma refresh_token_drops_the_authorization_witness :
  exists self1,
    refresh_token (fun _ => Ok (mkToken "abc" 1000 100000))
                  (sample_client "https://owner-api.teslamotors.com")
                  {| baseurl := "https://owner-api.teslamotors.com";
                     api := "/api/1/";
                     head := user_agent (sethead "old");
                     oauth := None;
                     expiration := Some 9000%Z;
                     vehicles := [] |} "r" =
      ([open_request "https://owner-api.teslamotors.com" "/oauth/token" []
          (Some [("grant_type", "refresh_token");
                 ("client_id", client_id
                    (sample_client "https://owner-api.teslamotors.com"));
                 ("client_secret", client_secret
                    (sample_client "https://owner-api.teslamotors.com"));
                 ("refresh_token", "r")]) ""],
       Ok (self1, mkToken "abc" 1000 100000))
    /\ expiration self1 = Some 9000%Z
    /\ (expired 5000 (Some 9000%Z) = false ->
        fst (post nat (fun _ => Ok (mkToken "abc" 1000 100000)) (fun _ => Ok 0%nat)
                  5000 self1 "vehicles" None) =
          [open_request "https://owner-api.teslamotors.com" ("/api/1/" ++ "vehicles")
                        [("User-Agent", "teslajson.py 1.3.1")] None ""])
    /\ (expired 5000 (Some 9000%Z) = true ->
        exists rest,
          fst (post nat (fun _ => Ok (mkToken "abc" 1000 100000)) (fun _ => Ok 0%nat)
                    5000 self1 "vehicles" None) =
            open_request "https://owner-api.teslamotors.com" "/oauth/token" []
              (Some [("grant_type", "refresh_token");
                     ("client_id", client_id
                        (sample_client "https://owner-api.teslamotors.com"));
                     ("client_secret", client_secret
                        (sample_client "https://owner-api.teslamotors.com"));
                     ("refresh_token", "r")]) "" :: rest).
Proof.
  apply (refresh_token_drops_the_authorization nat
           (fun _ => Ok (mkToken "abc" 1000 100000)) (fun _ => Ok 0%nat)
           (sample_client "https://owner-api.teslamotors.com")
           {| baseurl := "https://owner-api.teslamotors.com";
              api := "/api/1/";
              head := user_agent (sethead "old");
              oauth := None;
              expiration := Some 9000%Z;
              vehicles := [] |} "r" (mkToken "abc" 1000 100000) 5000 "vehicles" None).
  reflexivity.
Defined.

(** ** Vehicles *)

Lemma to_int_not_nil (z : Z) :
  Z.to_int z <> Decimal.Pos Decimal.Nil /\ Z.to_int z <> Decimal.Neg Decimal.Nil.
Proof.
  destruct z as [|p|p]; cbn; split; try discriminate;
    intros H; injection H as H;
    exact (DecimalPos.Unsigned.to_uint_nonnil p H).
Qed.

Lemma format_int_injective (a b : Z) : format_int a = format_int b -> a = b.
Proof.
  unfold format_int. intros H.
  apply (f_equal NilZero.int_of_string) in H.
  destruct (to_int_not_nil a) as (Ha1 & Ha2).
  destruct (to_int_not_nil b) as (Hb1 & Hb2).
  rewrite !NilZero.isi in H by assumption.
  injection H as H. now apply DecimalZ.to_int_inj.
Qed.

Lemma append_cancel_l (p a b : string) : p ++ a = p ++ b -> a = b.
Proof.
  induction p as [|c p IH]; cbn; [auto|]. intros H. injection H as H. auto.
Qed.

Lemma append_cancel_r (s : string) : forall a b, a ++ s = b ++ s -> a = b.
Proof.
  induction a as [|c a IH]; intros b H.
  - destruct b as [|c b]; [reflexivity|].
    apply (f_equal String.length) in H. cbn in H.
    rewrite length_append in H. lia.
  - destruct b as [|c' b].
    + apply (f_equal String.length) in H. cbn in H.
      rewrite length_append in H. lia.
    + cbn in H. injection H as -> H. f_equal. now apply IH.
Qed.

(** X21: on a connection whose token has not expired, [data_request] sends
    one request without data to the vehicle's own URL, extended by
    [/data_request/] and the name unless the name is empty, and [wake_up]
    sends one request with empty data to that URL extended by [/wake_up];
    the URL is made of the base URL, the API prefix, [vehicles/] and the
    identifier in decimal, so the same request for two vehicles goes to the
    same URL only when their identifiers are equal. *)
Theorem vehicle_requests :
  forall reply fetch_token fetch response now self id name,
    expired now (expiration self) = false ->
    map url (fst (data_request reply fetch_token fetch response now self id name))
      = [if name =? ""
         then baseurl self ++ api self ++ "vehicles/" ++ format_int id
         else baseurl self ++ api self ++ "vehicles/" ++ format_int id
                ++ "/data_request/" ++ name]
    /\ map data (fst (data_request reply fetch_token fetch response now self id name))
       = [None]
    /\ map url (fst (wake_up reply fetch_token fetch now self id))
       = [baseurl self ++ api self ++ "vehicles/" ++ format_int id ++ "/wake_up"]
    /\ map data (fst (wake_up reply fetch_token fetch now self id)) = [Some []]
    /\ (forall id',
          map url (fst (data_request reply fetch_token fetch response now self
                                     id' name))
          = map url (fst (data_request reply fetch_token fetch response now self
                                       id name)) ->
          id' = id).
Proof.
  intros reply ft f response now self id name Hex.
  assert (Hget : forall command,
             fst (post reply ft f now self command None) =
               [open_request (baseurl self) (api self ++ command)
                             (user_agent (head self)) None ""]
             /\ fst (responding reply response
                       (post reply ft f now self command None)) =
                  [open_request (baseurl self) (api self ++ command)
                                (user_agent (head self)) None ""]).
  { intros command. unfold responding, post. rewrite Hex. cbn.
    destruct (f _) as [r|e]; cbn; [|auto].
    destruct (response r); cbn; auto. }
  assert (Hurl : forall i,
             map url (fst (data_request reply ft f response now self i name))
             = [if name =? ""
                then baseurl self ++ api self ++ "vehicles/" ++ format_int i
                else baseurl self ++ api self ++ "vehicles/" ++ format_int i
                       ++ "/data_request/" ++ name]
             /\ map data (fst (data_request reply ft f response now self i name))
                = [None]).
  { intros i. unfold data_request, vehicle_get, get.
    destruct (name =? "") eqn:En.
    - destruct (Hget ("vehicles/" ++ format_int i)) as (_ & ->).
      split; reflexivity.
    - change ("data_request/" ++ name =? "") with false. cbv iota.
      destruct (Hget ("vehicles/" ++ format_int i ++ "/"
                                            ++ "data_request/" ++ name)) as (_ & ->).
      split; reflexivity. }
  destruct (Hurl id) as (Hu & Hd).
  split; [exact Hu|]. split; [exact Hd|].
  assert (Hw : fst (wake_up reply ft f now self id) =
               [open_request (baseurl self)
                             (api self ++ "vehicles/" ++ format_int id ++ "/wake_up")
                             (user_agent (head self)) (Some []) ""]).
  { unfold wake_up, vehicle_post, post. rewrite Hex. cbn.
    destruct (f _); reflexivity. }
  rewrite Hw. split; [reflexivity|]. split; [reflexivity|].
  intros id' Heq. destruct (Hurl id') as (Hu' & _). rewrite Hu, Hu' in Heq.
  injection Heq as Heq. apply format_int_injective.
  destruct (name =? "").
  - apply append_cancel_l in Heq. apply append_cancel_l in Heq.
    exact (append_cancel_l "vehicles/" (format_int id') (format_int id) Heq).
  - apply append_cancel_l in Heq. apply append_cancel_l in Heq.
    apply (append_cancel_l "vehicles/"
             (format_int id' ++ "/data_request/" ++ name)
             (format_int id ++ "/data_request/" ++ name)) in Heq.
    exact (append_cancel_r _ _ _ Heq).
Qed.

Lemma vehicle_requests_witness :
  map url (fst (wake_up nat (fun _ => Raise IOError) (fun _ => Ok 0%nat) 5000
                        {| baseurl := "https://owner-api.teslamotors.com";
                           api := "/api/1/";
                           head := sethead "tok";
                           oauth := None;
                           expiration := None;
                           vehicles := [7%Z] |} 7))
  = ["https://owner-api.teslamotors.com" ++ "/api/1/" ++ "vehicles/"
       ++ format_int 7 ++ "/wake_up"].
Proof.
  apply (vehicle_requests nat (fun _ => Raise IOError) (fun _ => Ok 0%nat)
           (fun r => Ok r) 5000
           {| baseurl := "https://owner-api.teslamotors.com";
              api := "/api/1/";
              head := sethead "tok";
              oauth := None;
              expiration := None;
              vehicles := [7%Z] |} 7 "charge_state" eq_refl).
Defined.

End ApiFacts.
